(** * DraggableContext: drag-and-drop reconciliation of article lists

    Shallow embedding of
    [common/library-components/src/components/ArticleList/DraggableContext.tsx].

    The component keeps three pieces of state between events: the
    [articleLists] prop (one JS object, mutated in place by the handlers),
    and the two React state cells [activeListId] and [activeArticle].  The
    three handlers [handleDragStart], [handleDragOver] and [handleDragEnd]
    are embedded as functions from the state before the event to an
    [Outcome]: the state after it, plus the ordered log of calls made to
    the outside world (the replicache mutators, the [setArticleLists]
    setter, [reportEvent], [console.error]).  A handler reads the state
    cells as the render it belongs to saw them, and its [set...] calls show
    in the state handed to the next event. *)

From Stdlib Require Import String Ascii List ZArith Bool Lia Permutation.
Import ListNotations.

#[local] Open Scope string_scope.
#[local] Open Scope list_scope.
#[local] Open Scope Z_scope.

(** ** JavaScript values used by the component *)

Module Js.

(** A string is falsy exactly when it is empty. *)
Definition truthy (s : string) : bool := negb (s =? "")%string.

(** [a === b] on values of type [string | undefined]. *)
Definition strictEq (a b : option string) : bool :=
  match a, b with
  | Some x, Some y => (x =? y)%string
  | None, None => true
  | _, _ => false
  end.

(** [s.endsWith(suffix)]: some tail of [s] is [suffix]. *)
Fixpoint endsWith (suffix s : string) : bool :=
  (s =? suffix)%string
  || match s with
     | EmptyString => false
     | String _ s' => endsWith suffix s'
     end.

(** [s.includes(sub)]: [sub] is a prefix of some tail of [s]. *)
Fixpoint includes (sub s : string) : bool :=
  String.prefix sub s
  || match s with
     | EmptyString => false
     | String _ s' => includes sub s'
     end.

Section Arrays.
Context {A : Type}.

Definition len (l : list A) : Z := Z.of_nat (length l).

(** [l[i]]: [undefined] (here [None]) outside [0 .. length-1],
    in particular at every negative index. *)
Definition get (l : list A) (i : Z) : option A :=
  if i <? 0 then None else nth_error l (Z.to_nat i).

(** [l.findIndex(p)]: index of the first match, [-1] when there is none. *)
Fixpoint findIndex (p : A -> bool) (l : list A) : Z :=
  match l with
  | [] => -1
  | x :: l' =>
      if p x then 0
      else let r := findIndex p l' in
           if r <? 0 then -1 else r + 1
  end.

(** Relative index of [slice] and [splice]: a negative index counts
    from the end, and the result is clamped to [0 .. n]. *)
Definition relIndex (n k : Z) : Z :=
  if k <? 0 then Z.max (n + k) 0 else Z.min k n.

(** [l.slice(s, e)]. *)
Definition slice (l : list A) (s e : Z) : list A :=
  let a := relIndex (len l) s in
  let b := relIndex (len l) e in
  firstn (Z.to_nat (b - a)) (skipn (Z.to_nat a) l).

(** [l.slice(s)]: the end defaults to the length. *)
Definition sliceFrom (l : list A) (s : Z) : list A := slice l s (len l).

(** [l.splice(start, 1)]: the removed element (if any) and what is left. *)
Definition spliceOut (l : list A) (start : Z) : option A * list A :=
  let f := Z.to_nat (relIndex (len l) start) in
  (nth_error l f, firstn f l ++ skipn (S f) l).

(** [l.splice(start, 0, x)]. *)
Definition spliceIn (l : list A) (start : Z) (x : A) : list A :=
  let s := Z.to_nat (relIndex (len l) start) in
  firstn s l ++ x :: skipn s l.

(** [arrayMove] of [@dnd-kit/sortable]:
<<
  const newArray = array.slice();
  newArray.splice(to < 0 ? newArray.length + to : to, 0,
                  newArray.splice(from, 1)[0]);
  return newArray;
>>
    The first argument of the outer [splice] is evaluated before the
    inner [splice] runs, hence against the original length.  When the
    inner [splice] removes nothing, JavaScript inserts [undefined]; the
    result is then not an array of [A] and the embedding returns [None]. *)
Definition arrayMove (l : list A) (from to : Z) : option (list A) :=
  let start := if to <? 0 then len l + to else to in
  match spliceOut l from with
  | (Some x, rest) => Some (spliceIn rest start x)
  | (None, _) => None
  end.
End Arrays.

End Js.

(** ** Data model *)

(** The fields of [Article] the component reads. *)
Record Article : Type := mkArticle {
  id : string;
  url : string;
  topic_id : option string;
}.

(** [ArticleSortPosition]. *)
Inductive ArticleSortPosition : Type :=
| recency_sort_position
| queue_sort_position
| favorites_sort_position
| topic_sort_position
| domain_sort_position.

(** [ArticleListsCache = { [listId: string]: Article[] }], as the
    association list of its entries in [Object.keys] order.  The handlers
    only ever assign to keys that are already present. *)
Definition ArticleListsCache : Type := list (string * list Article).

(** [articleLists[listId]]. *)
Fixpoint lookup (listId : string) (c : ArticleListsCache) : option (list Article) :=
  match c with
  | [] => None
  | (k, v) :: c' => if (k =? listId)%string then Some v else lookup listId c'
  end.

(** [articleLists[listId] = v]: in place when the key exists, a new last
    key otherwise. *)
Fixpoint assign (listId : string) (v : list Article) (c : ArticleListsCache)
  : ArticleListsCache :=
  match c with
  | [] => [(listId, v)]
  | (k, w) :: c' =>
      if (k =? listId)%string then (k, v) :: c' else (k, w) :: assign listId v c'
  end.

Definition hasId (i : string) (a : Article) : bool := (id a =? i)%string.

(** [Object.keys(articleLists).find((listId) =>
       articleLists[listId].some((a) => a.id === i))]. *)
Definition findList (c : ArticleListsCache) (i : string) : option string :=
  find (fun listId =>
          match lookup listId c with
          | Some l => existsb (hasId i) l
          | None => false
          end)
       (map fst c).

(** The drag events of [@dnd-kit/core], reduced to what the handlers read:
    the id and whether [data.current] is set. *)
Record Active : Type := mkActive { active_id : string; active_data : bool }.
Record Over : Type := mkOver { over_id : string; over_data : bool }.

(** State carried from one event to the next. *)
Record State : Type := mkState {
  articleLists : option ArticleListsCache;
  activeListId : option string;
  activeArticle : option Article;
}.

(** Argument of [rep.mutate.moveArticlePosition]. *)
Record MovePosition : Type := mkMovePosition {
  articleId : string;
  articleIdBeforeNewPosition : option string;
  articleIdAfterNewPosition : option string;
  sortPosition : ArticleSortPosition;
}.

(** What the [.then] callback of [handleDragOver] captures: it reads
    [articleLists[targetList]] again when it runs. *)
Record Pending : Type := mkPending {
  pendingArticle : string;
  pendingList : string;
  pendingIndex : Z;
}.

(** Calls to the outside world, in program order.
    [SetArticleListsHoled c listId] is the call of [setArticleLists] with
    the collection that is [c] except for its entry [listId], which is
    [[undefined]] and so no list of articles. *)
Inductive Effect : Type :=
| UpdateArticle (article : string) (is_queued : bool)
                (queue_position : option Z) (andThen : option Pending)
| MoveArticlePosition (m : MovePosition)
| SetArticleLists (c : ArticleListsCache)
| SetArticleListsHoled (c : ArticleListsCache) (listId : string)
| ReportEvent (name : string)
| ConsoleError (listId : string).

(** How a handler ends.  It returns with the state [st]; or it throws the
    [TypeError] of a method call on [articleLists[k]] for a missing key; or
    it returns after [arrayMove] has put [undefined] into the list
    [listId]: the state is then [st] except that the entry [listId] of the
    collection is [[undefined]], which the collection type cannot hold. *)
Inductive Outcome : Type :=
| Returns (st : State) (log : list Effect)
| Throws
| IllTyped (st : State) (listId : string) (log : list Effect).

Definition effects (o : Outcome) : list Effect :=
  match o with
  | Returns _ log => log
  | Throws => []
  | IllTyped _ _ log => log
  end.

(** The state cells and (up to a hole) the collection a handler leaves. *)
Definition after (o : Outcome) : option State :=
  match o with
  | Returns st _ => Some st
  | Throws => None
  | IllTyped st _ _ => Some st
  end.

(** The session states of the drag gesture. *)
Definition Idle (st : State) : Prop :=
  activeArticle st = None /\ activeListId st = None.

Definition Dragging (st : State) : Prop := activeArticle st <> None.

(** ** The component *)

(** What a render of the component closes over besides its state:
    [getDomain] of [../../common] (an imported pure function of the URL),
    whether the replicache context [rep] is there ([rep?.mutate] does
    nothing without it), and the clock read by [new Date().getTime()]. *)
Record Env : Type := mkEnv {
  getDomain : string -> option string;
  rep : bool;
  now : Z;
}.

(** [rep?.mutate.f(...)]. *)
Definition mutate (env : Env) (e : Effect) : list Effect :=
  if rep env then [e] else [].

(** [articleLists[l].filter((a) => a.id !== i)]. *)
Definition without (i : string) (l : list Article) : list Article :=
  filter (fun a => negb (hasId i a)) l.

(** [x?.id]. *)
Definition idOf (x : option Article) : option string := option_map id x.

(** [x?.id || null]: an empty id is falsy and becomes [null]. *)
Definition idOrNull (x : option Article) : option string :=
  match x with
  | Some a => if Js.truthy (id a) then Some (id a) else None
  | None => None
  end.

(** A state value of type [string | null] that passes [if (v)]. *)
Definition whenTruthy (v : option string) : option string :=
  match v with
  | Some s => if Js.truthy s then Some s else None
  | None => None
  end.

(** Lines 55-70. *)
Definition handleDragStart (st : State) (active : Active) : Outcome :=
  match articleLists st with
  | Some lists =>
      if negb (active_data active) then Returns st []
      else
        let sourceList := findList lists (active_id active) in
        match whenTruthy sourceList with
        | Some s =>
            match lookup s lists with
            | Some l =>
                Returns (mkState (Some lists) (Some s)
                                 (find (hasId (active_id active)) l)) []
            | None => Throws
            end
        | None => Returns (mkState (Some lists) None (activeArticle st)) []
        end
  | None => Returns st []
  end.

(** Lines 85-89: only moves from or to the reading queue go on. *)
Definition notQueueMove (sourceList : option string) (targetList : string) : bool :=
  negb (Js.strictEq sourceList (Some "queue"))
  && negb (targetList =? "queue")%string.

(** Lines 90-95: the target is a topic or domain group the article does not
    belong to. *)
Definition groupMismatch (env : Env) (a : Article) (targetList : string) : bool :=
  (Js.endsWith "_" targetList && negb (Js.strictEq (topic_id a) (Some targetList)))
  || (Js.includes "." targetList
      && negb (Js.strictEq (getDomain env (url a)) (Some targetList))).

(** Lines 134-138: the article leaves the source list, when there is one. *)
Definition removeFromSource (a : Article) (sourceList : option string)
    (lists : ArticleListsCache) : option ArticleListsCache :=
  match whenTruthy sourceList with
  | Some s =>
      match lookup s lists with
      | Some l => Some (assign s (without (id a) l) lists)
      | None => None
      end
  | None => Some lists
  end.

(** Lines 139-142: the article enters the target list in front of the
    element at [targetIndex]. *)
Definition insertIntoTarget (a : Article) (targetList : string) (targetIndex : Z)
    (lists : ArticleListsCache) : option ArticleListsCache :=
  match lookup targetList lists with
  | Some l =>
      Some (assign targetList
                   (Js.slice l 0 targetIndex ++ [a] ++ Js.sliceFrom l targetIndex)
                   lists)
  | None => None
  end.

(** Lines 134-142 together: the mutation of the snapshot by a cross-list
    move. *)
Definition crossListMove (a : Article) (sourceList : option string)
    (targetList : string) (targetIndex : Z) (lists : ArticleListsCache)
  : option ArticleListsCache :=
  match removeFromSource a sourceList lists with
  | Some lists1 => insertIntoTarget a targetList targetIndex lists1
  | None => None
  end.

(** Lines 80-84: the hovered list is the drop zone itself when it carries
    no data (an empty container), else the list holding the hovered item. *)
Definition resolveTarget (lists : ArticleListsCache) (ov : Over) : option string :=
  if negb (over_data ov) then Some (over_id ov)
  else findList lists (over_id ov).

(** Lines 72-149. *)
Definition handleDragOver (env : Env) (st : State) (active : Active)
    (over : option Over) : Outcome :=
  match articleLists st, over, activeArticle st with
  | Some lists, Some ov, Some art =>
      let sourceList := findList lists (active_id active) in
      let targetList := resolveTarget lists ov in
      match whenTruthy targetList with
      | Some t =>
          if Js.strictEq sourceList (Some t) then Returns st []
          else if notQueueMove sourceList t then Returns st []
          else if groupMismatch env art t then
            match whenTruthy sourceList with
            | Some s =>
                match lookup s lists with
                | Some l =>
                    Returns (mkState (Some (assign s (without (id art) l) lists))
                                     None (Some art)) []
                | None => Throws
                end
            | None => Returns st []
            end
          else
            match lookup t lists with
            | Some tl =>
                let targetIndex := Js.findIndex (hasId (over_id ov)) tl in
                let update :=
                  mutate env
                    (UpdateArticle (id art) (t =? "queue")%string (Some (now env))
                                   (Some (mkPending (id art) t targetIndex))) in
                match crossListMove art sourceList t targetIndex lists with
                | Some lists' =>
                    Returns (mkState (Some lists') (Some t) (Some art))
                            (update ++
                             if (t =? "queue")%string
                             then [ReportEvent "addArticleToQueue"] else [])
                | None => Throws
                end
            | None => Throws
            end
      | None => Returns st []
      end
  | _, _, _ => Returns st []
  end.

(** Lines 121-132: the [.then] callback, run once the membership update
    has resolved, against the [articleLists] object as it is by then.  It
    fails (a rejected promise) when the key is gone. *)
Definition resolvePending (lists : ArticleListsCache) (p : Pending) : option Effect :=
  match lookup (pendingList p) lists with
  | Some tl =>
      Some (MoveArticlePosition
              (mkMovePosition (pendingArticle p)
                              (idOf (Js.get tl (pendingIndex p)))
                              (idOf (Js.get tl (pendingIndex p + 1)))
                              queue_sort_position))
  | None => None
  end.

(** Lines 173-190: which sort order a list is displayed in. *)
Definition sortKey (listId : string) : option ArticleSortPosition :=
  if (listId =? "list")%string then Some recency_sort_position
  else if (listId =? "queue")%string then Some queue_sort_position
  else if (listId =? "favorites")%string then Some favorites_sort_position
  else if Js.endsWith "_" listId then Some topic_sort_position
  else if Js.includes "." listId then Some domain_sort_position
  else None.

(** Lines 194-195. *)
Definition newIndexShifted (oldIndex newIndex : Z) : Z :=
  if oldIndex <? newIndex then newIndex + 1 else newIndex.

(** Lines 196-204: the position command of a reorder inside list [l]. *)
Definition reorderCommand (i : string) (l : list Article)
    (oldIndex newIndex : Z) (k : ArticleSortPosition) : Effect :=
  MoveArticlePosition
    (mkMovePosition i
       (idOrNull (Js.get l (newIndexShifted oldIndex newIndex - 1)))
       (idOrNull (Js.get l (newIndexShifted oldIndex newIndex)))
       k).

(** Lines 151-222. *)
Definition handleDragEnd (env : Env) (st : State) (active : Active)
    (over : option Over) : Outcome :=
  match over, articleLists st with
  | Some ov, Some lists =>
      match whenTruthy (activeListId st) with
      | None =>
          (* remove from queue *)
          Returns st (mutate env (UpdateArticle (active_id active) false None None))
      | Some listId =>
          if negb (active_id active =? over_id ov)%string then
            match lookup listId lists with
            | Some l =>
                let oldIndex := Js.findIndex (hasId (active_id active)) l in
                let newIndex := Js.findIndex (hasId (over_id ov)) l in
                match sortKey listId with
                | Some k =>
                    let command :=
                      mutate env
                        (reorderCommand (active_id active) l oldIndex newIndex k) in
                    match Js.arrayMove l oldIndex newIndex with
                    | Some l' =>
                        let lists' := assign listId l' lists in
                        Returns (mkState (Some lists') None None)
                                (command ++ [SetArticleLists lists';
                                             ReportEvent "reorderArticles"])
                    | None =>
                        (* the list is empty: [arrayMove] gives [[undefined]];
                           lines 214-221 run all the same *)
                        IllTyped (mkState (Some lists) None None) listId
                                 (command ++ [SetArticleListsHoled lists listId;
                                              ReportEvent "reorderArticles"])
                    end
                | None => Returns st [ConsoleError listId]
                end
            | None => Throws
            end
          else
            Returns (mkState (Some lists) None None)
                    [ReportEvent "reorderArticles"]
      end
  | _, _ => Returns st []
  end.

(** ** Predicates used in the statements *)

(** How many entries of a list carry the id [i]. *)
Definition count (i : string) (l : list Article) : nat :=
  length (filter (hasId i) l).

(** The source's guards on the way to line 108 of [handleDragOver]: a
    target list [t] is hovered, it is not the list holding the dragged item,
    one of the two is the queue, and [t] is no group foreign to the
    article. *)
Definition acceptsMove (env : Env) (lists : ArticleListsCache) (art : Article)
    (active : Active) (ov : Over) (t : string) : Prop :=
  whenTruthy (resolveTarget lists ov) = Some t
  /\ findList lists (active_id active) <> Some t
  /\ notQueueMove (findList lists (active_id active)) t = false
  /\ groupMismatch env art t = false.

(** The end handler has run to completion: the session is back to [Idle]
    and the closing ["reorderArticles"] event is in the log. *)
Definition completes (o : Outcome) : Prop :=
  exists st,
    after o = Some st /\ Idle st
    /\ In (ReportEvent "reorderArticles") (effects o).

(** The source's guards on the way to the end of [handleDragEnd]: a target,
    a collection and a recorded source list are there, and when the target
    is not the dragged item itself, the recorded list is a list of the
    collection with a sort key. *)
Definition reachesEnd (st : State) (active : Active) (over : option Over) : Prop :=
  exists ov lists listId,
    over = Some ov /\ articleLists st = Some lists
    /\ whenTruthy (activeListId st) = Some listId
    /\ (active_id active = over_id ov
        \/ exists l, lookup listId lists = Some l /\ sortKey listId <> None).

(** The session records a list only together with an article that the list
    holds: what [handleDragStart] and an accepted [handleDragOver] set up. *)
Definition recordsHolder (st : State) : Prop :=
  forall s,
    activeListId st = Some s ->
    Js.truthy s = true
    /\ exists lists l art,
         articleLists st = Some lists /\ lookup s lists = Some l
         /\ activeArticle st = Some art /\ In art l.

(** The calls that reach the store: [rep.mutate.updateArticle] and
    [rep.mutate.moveArticlePosition]. *)
Definition isStoreCommand (e : Effect) : bool :=
  match e with
  | UpdateArticle _ _ _ _ | MoveArticlePosition _ => true
  | _ => false
  end.

(** ** Sample data *)

Module Sample.

Definition env : Env :=
  mkEnv (fun _ => Some "example.com") true 1700000000000.

Definition a1 : Article := mkArticle "a1" "https://example.com/a1" (Some "sports_").
Definition a2 : Article := mkArticle "a2" "https://example.com/a2" (Some "news_").
Definition n1 : Article := mkArticle "n1" "https://news.site/n1" (Some "news_").
Definition x : Article := mkArticle "x" "https://example.com/x" None.
Definition y : Article := mkArticle "y" "https://example.com/y" None.

Definition A : Article := mkArticle "A" "https://example.com/A" None.
Definition B : Article := mkArticle "B" "https://example.com/B" None.
Definition C : Article := mkArticle "C" "https://example.com/C" None.
Definition D : Article := mkArticle "D" "https://example.com/D" None.

(** The reading queue with two items, an empty favorites list, a topic
    group and a second fixed list. *)
Definition lists : ArticleListsCache :=
  [("queue", [a1; a2]); ("favorites", []); ("news_", [n1]); ("list", [x; y])].

Definition dragging : State := mkState (Some lists) (Some "queue") (Some a1).

Definition drag_a1 : Active := mkActive "a1" true.
Definition drag_a2 : Active := mkActive "a2" true.
Definition onFavorites : Over := mkOver "favorites" false.
Definition onNews : Over := mkOver "n1" true.
Definition onY : Over := mkOver "y" true.

(** The session after ["a1"] fell out of the queue over a foreign topic
    group: the article is still recorded, its list is not. *)
Definition fallen : State :=
  mkState (Some [("queue", [a2]); ("favorites", []); ("news_", [n1]);
                 ("list", [x; y])])
          None (Some a1).

(** A list of four items under the list id [listId]. *)
Definition abcd (listId : string) : State :=
  mkState (Some [(listId, [A; B; C; D])]) (Some listId) (Some A).

End Sample.

(** * Properties *)

(** ** Strings and truthiness *)

Lemma whenTruthy_Some v s : whenTruthy v = Some s -> v = Some s /\ Js.truthy s = true.
Proof.
  destruct v as [x|]; simpl; [|discriminate].
  destruct (Js.truthy x) eqn:E; [|discriminate].
  intros H; injection H as <-. auto.
Qed.

Lemma whenTruthy_intro s : Js.truthy s = true -> whenTruthy (Some s) = Some s.
Proof. intros H. simpl. now rewrite H. Qed.

Lemma strictEq_true a b : Js.strictEq a b = true <-> a = b.
Proof.
  destruct a as [x|], b as [y|]; simpl; split; intros H;
    try discriminate; try reflexivity.
  - apply String.eqb_eq in H. now subst.
  - injection H as ->. apply String.eqb_refl.
Qed.

Lemma strictEq_false a b : Js.strictEq a b = false <-> a <> b.
Proof.
  split.
  - intros H E. apply strictEq_true in E. congruence.
  - intros H. destruct (Js.strictEq a b) eqn:E; [|reflexivity].
    apply strictEq_true in E. contradiction.
Qed.

(** ** The collection as a store *)

Section Store.
Implicit Types (c : ArticleListsCache) (k : string) (v : list Article).

Lemma lookup_assign_same k v c : lookup k (assign k v c) = Some v.
Proof.
  induction c as [|[k' w] c IH]; simpl.
  - now rewrite String.eqb_refl.
  - destruct (k' =? k)%string eqn:E; simpl; rewrite E; auto.
Qed.

Lemma lookup_assign_other k k' v c :
  k <> k' -> lookup k' (assign k v c) = lookup k' c.
Proof.
  intros N. induction c as [|[k0 w] c IH]; simpl.
  - destruct (k =? k')%string eqn:E; [apply String.eqb_eq in E; contradiction | reflexivity].
  - destruct (k0 =? k)%string eqn:E; simpl.
    + apply String.eqb_eq in E; subst k0.
      destruct (k =? k')%string eqn:E'; [apply String.eqb_eq in E'; contradiction | reflexivity].
    + now rewrite IH.
Qed.

Lemma assign_lookup k v c : lookup k c = Some v -> assign k v c = c.
Proof.
  induction c as [|[k0 w] c IH]; simpl; [discriminate|].
  destruct (k0 =? k)%string eqn:E.
  - intros H; injection H as ->. reflexivity.
  - intros H. now rewrite IH.
Qed.

Lemma assign_assign k v w c : assign k v (assign k w c) = assign k v c.
Proof.
  induction c as [|[k0 u] c IH]; simpl.
  - now rewrite String.eqb_refl.
  - destruct (k0 =? k)%string eqn:E; simpl; rewrite E; [reflexivity | now rewrite IH].
Qed.

(** Assigning to a key that is there keeps the keys and their order. *)
Lemma keys_assign k v w c :
  lookup k c = Some w -> map fst (assign k v c) = map fst c.
Proof.
  induction c as [|[k0 u] c IH]; simpl; [discriminate|].
  destruct (k0 =? k)%string eqn:E; simpl; [reflexivity|].
  intros H. now rewrite IH.
Qed.

(** A list found by [findList] is a key of the collection and holds the
    item. *)
Lemma findList_Some c i k :
  findList c i = Some k ->
  exists l, lookup k c = Some l /\ existsb (hasId i) l = true.
Proof.
  unfold findList. intros H. apply find_some in H as [_ H].
  destruct (lookup k c) as [l|]; [eauto | discriminate].
Qed.
End Store.

(** ** Sort-key resolution *)

Lemma sortKey_topic i : Js.endsWith "_" i = true -> sortKey i = Some topic_sort_position.
Proof.
  intros H. unfold sortKey.
  destruct (i =? "list")%string eqn:E1;
    [apply String.eqb_eq in E1; subst; discriminate H|].
  destruct (i =? "queue")%string eqn:E2;
    [apply String.eqb_eq in E2; subst; discriminate H|].
  destruct (i =? "favorites")%string eqn:E3;
    [apply String.eqb_eq in E3; subst; discriminate H|].
  now rewrite H.
Qed.

Lemma sortKey_domain i :
  Js.includes "." i = true -> Js.endsWith "_" i = false ->
  sortKey i = Some domain_sort_position.
Proof.
  intros H N. unfold sortKey.
  destruct (i =? "list")%string eqn:E1;
    [apply String.eqb_eq in E1; subst; discriminate H|].
  destruct (i =? "queue")%string eqn:E2;
    [apply String.eqb_eq in E2; subst; discriminate H|].
  destruct (i =? "favorites")%string eqn:E3;
    [apply String.eqb_eq in E3; subst; discriminate H|].
  now rewrite N, H.
Qed.

Lemma sortKey_other i :
  i <> "list" -> i <> "queue" -> i <> "favorites" ->
  Js.endsWith "_" i = false -> Js.includes "." i = false ->
  sortKey i = None.
Proof.
  intros N1 N2 N3 H1 H2. unfold sortKey.
  apply String.eqb_neq in N1, N2, N3. now rewrite N1, N2, N3, H1, H2.
Qed.

(** An unresolvable list id makes [handleDragEnd] log the error and return
    with the session as it was. *)
Lemma handleDragEnd_unresolvable env st active ov lists listId l :
  articleLists st = Some lists ->
  whenTruthy (activeListId st) = Some listId ->
  lookup listId lists = Some l ->
  active_id active <> over_id ov ->
  sortKey listId = None ->
  handleDragEnd env st active (Some ov) = Returns st [ConsoleError listId].
Proof.
  intros HL HA Hl N HK. unfold handleDragEnd.
  apply String.eqb_neq in N. now rewrite HL, HA, N, Hl, HK.
Qed.

(** C7 (as amended).  The sort key of a reorder is resolved by first match:
    ["list"] gives the recency attribute, ["queue"] the queue attribute,
    ["favorites"] the favorites attribute, an id ending with ["_"] the topic
    attribute, an id containing ["."] that does not end with ["_"] the
    domain attribute.  For every other id recorded as the source list (and
    present in the collection) the end handler only logs the error: it
    returns normally, issues no command and leaves the session as it was. *)
Theorem sortKey_first_match :
  sortKey "list" = Some recency_sort_position
  /\ sortKey "queue" = Some queue_sort_position
  /\ sortKey "favorites" = Some favorites_sort_position
  /\ (forall i, Js.endsWith "_" i = true -> sortKey i = Some topic_sort_position)
  /\ (forall i, Js.includes "." i = true -> Js.endsWith "_" i = false ->
                sortKey i = Some domain_sort_position)
  /\ (forall i, i <> "list" -> i <> "queue" -> i <> "favorites" ->
                Js.endsWith "_" i = false -> Js.includes "." i = false ->
                sortKey i = None)
  /\ (forall env st active ov lists listId l,
         articleLists st = Some lists ->
         whenTruthy (activeListId st) = Some listId ->
         lookup listId lists = Some l ->
         active_id active <> over_id ov ->
         sortKey listId = None ->
         handleDragEnd env st active (Some ov) = Returns st [ConsoleError listId]).
Proof.
  repeat split; try reflexivity.
  - exact sortKey_topic.
  - exact sortKey_domain.
  - exact sortKey_other.
  - exact handleDragEnd_unresolvable.
Qed.

(** C7, counterexample: ["news.site_"] contains the domain separator, yet
    it ends with the topic marker and resolves to the topic attribute. *)
Lemma sortKey_domain_counterexample :
  Js.includes "." "news.site_" = true
  /\ sortKey "news.site_" = Some topic_sort_position
  /\ sortKey "news.site_" <> Some domain_sort_position.
Proof. repeat split; try reflexivity. discriminate. Qed.

Lemma sortKey_first_match_witness :
  sortKey "sports_" = Some topic_sort_position
  /\ sortKey "example.com" = Some domain_sort_position
  /\ sortKey "misc" = None
  /\ handleDragEnd Sample.env (Sample.abcd "misc") (mkActive "A" true)
                   (Some (mkOver "C" true))
     = Returns (Sample.abcd "misc") [ConsoleError "misc"].
Proof.
  destruct sortKey_first_match as (_ & _ & _ & T & D & O & E).
  split; [apply T; reflexivity|].
  split; [apply D; reflexivity|].
  split; [apply O; try reflexivity; discriminate|].
  apply (E Sample.env (Sample.abcd "misc") (mkActive "A" true) (mkOver "C" true)
           [("misc", [Sample.A; Sample.B; Sample.C; Sample.D])] "misc"
           [Sample.A; Sample.B; Sample.C; Sample.D]);
    try reflexivity; discriminate.
Defined.

(** ** Validation of a cross-list move *)

Lemma option_string_dec (a b : option string) : {a = b} + {a <> b}.
Proof. decide equality. apply string_dec. Qed.

(** C6.  When the hovered list differs from the list that holds the dragged
    item, the move goes through only if one of the two is ["queue"]: for
    every other pair the handler returns with the state (hence the
    collection) as it was and nothing issued. *)
Theorem over_only_from_or_to_queue env st active ov lists t :
  articleLists st = Some lists ->
  resolveTarget lists ov = Some t ->
  findList lists (active_id active) <> Some t ->
  (findList lists (active_id active) <> Some "queue" -> t <> "queue" ->
   handleDragOver env st active (Some ov) = Returns st [])
  /\ (handleDragOver env st active (Some ov) <> Returns st [] ->
      findList lists (active_id active) = Some "queue" \/ t = "queue").
Proof.
  intros HL HT HD.
  assert (denied : findList lists (active_id active) <> Some "queue" -> t <> "queue" ->
                   handleDragOver env st active (Some ov) = Returns st []).
  { intros NS NT. unfold handleDragOver. rewrite HL.
    destruct (activeArticle st) as [art|]; [|reflexivity].
    rewrite HT. simpl. destruct (Js.truthy t); [|reflexivity].
    apply strictEq_false in HD. rewrite HD.
    unfold notQueueMove.
    apply strictEq_false in NS. apply String.eqb_neq in NT.
    now rewrite NS, NT. }
  split; [exact denied|].
  intros H.
  destruct (option_string_dec (findList lists (active_id active)) (Some "queue"))
    as [E|NS]; [now left|].
  destruct (string_dec t "queue") as [E|NT]; [now right|].
  exfalso. apply H. now apply denied.
Qed.

Lemma over_only_from_or_to_queue_witness :
  handleDragOver Sample.env (mkState (Some Sample.lists) (Some "list") (Some Sample.x))
                 (mkActive "x" true) (Some Sample.onFavorites)
  = Returns (mkState (Some Sample.lists) (Some "list") (Some Sample.x)) [].
Proof.
  apply (over_only_from_or_to_queue Sample.env
           (mkState (Some Sample.lists) (Some "list") (Some Sample.x))
           (mkActive "x" true) Sample.onFavorites Sample.lists "favorites");
    try reflexivity; discriminate.
Defined.

Lemma groupMismatch_not_queue env a t : groupMismatch env a t = true -> t <> "queue".
Proof. intros H E. subst t. discriminate H. Qed.

Lemma without_removes i l : existsb (hasId i) (without i l) = false.
Proof.
  induction l as [|a l IH]; simpl; [reflexivity|].
  destruct (hasId i a) eqn:E; simpl; [exact IH|].
  now rewrite E.
Qed.

(** [filter] keeps the articles of the list other than those with the id
    [i], whatever [filter] is applied by. *)
Lemma without_filter i l :
  without i l = filter (fun a => negb (id a =? i)%string) l.
Proof. reflexivity. Qed.

Lemma In_without i l a : In a (without i l) <-> In a l /\ id a <> i.
Proof.
  unfold without. rewrite filter_In. unfold hasId.
  split; intros [H1 H2]; (split; [exact H1|]).
  - apply negb_true_iff, String.eqb_neq in H2. exact H2.
  - apply negb_true_iff, String.eqb_neq. exact H2.
Qed.

(** C5.  When the move is refused because the target is a topic or domain
    group the dragged article does not belong to, the source list is
    ["queue"]; the new queue is the old one with the entries carrying the id
    of the article filtered out: every other entry stays, in its place
    among the others, and no entry with that id is left.  The recorded list
    is cleared, nothing is issued, and the keys and every other list, the
    target among them, are what they were: the article is in no list it was
    not in before. *)
Theorem over_group_mismatch_drops_item env st active ov lists art t :
  articleLists st = Some lists ->
  activeArticle st = Some art ->
  whenTruthy (resolveTarget lists ov) = Some t ->
  findList lists (active_id active) <> Some t ->
  notQueueMove (findList lists (active_id active)) t = false ->
  groupMismatch env art t = true ->
  exists q q' lists',
    findList lists (active_id active) = Some "queue"
    /\ lookup "queue" lists = Some q
    /\ handleDragOver env st active (Some ov)
       = Returns (mkState (Some lists') None (Some art)) []
    /\ lookup "queue" lists' = Some q'
    /\ q' = filter (fun a => negb (id a =? id art)%string) q
    /\ (forall a, In a q' <-> In a q /\ id a <> id art)
    /\ (forall pre post,
           q = pre ++ art :: post ->
           (forall a, In a (pre ++ post) -> id a <> id art) ->
           q' = pre ++ post)
    /\ lookup t lists' = lookup t lists
    /\ (forall k, k <> "queue" -> lookup k lists' = lookup k lists)
    /\ map fst lists' = map fst lists.
Proof.
  intros HL HA HT HD HQ HM.
  pose proof (groupMismatch_not_queue _ _ _ HM) as NT.
  assert (HS : findList lists (active_id active) = Some "queue").
  { unfold notQueueMove in HQ. apply andb_false_iff in HQ as [HQ|HQ].
    - apply negb_false_iff, strictEq_true in HQ. exact HQ.
    - apply negb_false_iff, String.eqb_eq in HQ. contradiction. }
  destruct (findList_Some _ _ _ HS) as (q & Hq & _).
  exists q, (without (id art) q), (assign "queue" (without (id art) q) lists).
  split; [exact HS|]. split; [exact Hq|].
  split.
  { unfold handleDragOver. rewrite HL, HA, HT.
    apply strictEq_false in HD. rewrite HD, HQ, HM, HS. simpl. now rewrite Hq. }
  split; [apply lookup_assign_same|].
  split; [apply without_filter|].
  split; [intros a; apply In_without|].
  split.
  { intros pre post -> Hother. rewrite without_filter, filter_app. cbn [filter].
    rewrite String.eqb_refl. cbn [negb]. rewrite <- filter_app.
    apply forallb_filter_id. apply forallb_forall.
    intros a Ha. apply negb_true_iff, String.eqb_neq. now apply Hother. }
  split; [apply lookup_assign_other; congruence|].
  split; [intros k Hk; apply lookup_assign_other; congruence|].
  eapply keys_assign; eassumption.
Qed.

Lemma over_group_mismatch_drops_item_witness :
  handleDragOver Sample.env Sample.dragging Sample.drag_a1 (Some Sample.onNews)
  = Returns (mkState (Some [("queue", [Sample.a2]); ("favorites", []);
                            ("news_", [Sample.n1]);
                            ("list", [Sample.x; Sample.y])])
                     None (Some Sample.a1)) []
  /\ lookup "queue" Sample.lists = Some [Sample.a1; Sample.a2].
Proof.
  destruct (over_group_mismatch_drops_item Sample.env Sample.dragging
              Sample.drag_a1 Sample.onNews Sample.lists Sample.a1 "news_")
    as (q & q' & lists' & _ & Hq & HO & Hq' & _ & _ & Hsplit & _);
    try reflexivity; [discriminate|].
  split; [|reflexivity].
  injection Hq as <-.
  specialize (Hsplit [] [Sample.a2] eq_refl).
  rewrite HO. f_equal. f_equal.
  injection HO as <-. reflexivity.
Defined.

(** ** JavaScript arrays *)

Section ArrayFacts.
Context {A : Type}.
Implicit Types (l : list A) (p : A -> bool).

Lemma len_nonneg l : 0 <= Js.len l.
Proof. unfold Js.len. lia. Qed.

Lemma findIndex_range p l : -1 <= Js.findIndex p l < Js.len l.
Proof.
  unfold Js.len. induction l as [|x l IH]; simpl; [lia|].
  destruct (p x); [lia|].
  destruct (Js.findIndex p l <? 0) eqn:E; [lia|].
  apply Z.ltb_ge in E. lia.
Qed.

(** A non-negative [findIndex] points at an element that matches. *)
Lemma findIndex_get p l :
  0 <= Js.findIndex p l ->
  exists x, Js.get l (Js.findIndex p l) = Some x /\ p x = true.
Proof.
  induction l as [|x l IH]; simpl; [lia|].
  destruct (p x) eqn:Px; [intros _; exists x; auto|].
  destruct (Js.findIndex p l <? 0) eqn:E; [lia|].
  pose proof (proj1 (Z.ltb_ge _ _) E) as G. intros _.
  destruct (IH G) as (y & Hy & Py). exists y. split; [|exact Py].
  unfold Js.get in *. rewrite E in Hy.
  destruct (Js.findIndex p l + 1 <? 0) eqn:E'; [apply Z.ltb_lt in E'; lia|].
  replace (Z.to_nat (Js.findIndex p l + 1)) with (S (Z.to_nat (Js.findIndex p l))) by lia.
  exact Hy.
Qed.

(** [slice(0, i)] and [slice(i)] inside the bounds are [firstn] and
    [skipn]. *)
Lemma slice_prefix l i :
  0 <= i <= Js.len l -> Js.slice l 0 i = firstn (Z.to_nat i) l.
Proof.
  intros H. unfold Js.slice, Js.relIndex.
  change (0 <? 0) with false. cbv iota.
  destruct (i <? 0) eqn:E; [apply Z.ltb_lt in E; lia|].
  rewrite (Z.min_l 0), (Z.min_l i) by lia.
  now rewrite Z.sub_0_r.
Qed.

Lemma sliceFrom_suffix l i :
  0 <= i <= Js.len l -> Js.sliceFrom l i = skipn (Z.to_nat i) l.
Proof.
  intros H. unfold Js.sliceFrom, Js.slice, Js.relIndex.
  destruct (i <? 0) eqn:E; [apply Z.ltb_lt in E; lia|].
  destruct (Js.len l <? 0) eqn:E'; [apply Z.ltb_lt in E'; lia|].
  rewrite Z.min_id, Z.min_l by lia.
  apply firstn_all2. rewrite length_skipn. unfold Js.len in *. lia.
Qed.

(** Insertion in front of index [i], as lines 139-142 do it. *)
Lemma insert_at l i (a : A) :
  0 <= i <= Js.len l ->
  Js.slice l 0 i ++ [a] ++ Js.sliceFrom l i
  = firstn (Z.to_nat i) l ++ a :: skipn (Z.to_nat i) l.
Proof. intros H. now rewrite slice_prefix, sliceFrom_suffix. Qed.

(** After the insertion the element that was at [i] sits at [i + 1]. *)
Lemma get_after_insert l i (a : A) :
  0 <= i < Js.len l ->
  Js.get (Js.slice l 0 i ++ [a] ++ Js.sliceFrom l i) (i + 1) = Js.get l i.
Proof.
  intros H. rewrite insert_at by lia. unfold Js.get, Js.len in *.
  destruct (i + 1 <? 0) eqn:E; [apply Z.ltb_lt in E; lia|].
  destruct (i <? 0) eqn:E'; [apply Z.ltb_lt in E'; lia|].
  rewrite nth_error_app2 by (rewrite length_firstn; lia).
  rewrite length_firstn.
  replace (Z.to_nat (i + 1) - Nat.min (Z.to_nat i) (length l))%nat with 1%nat by lia.
  change (nth_error (a :: skipn (Z.to_nat i) l) 1)
    with (nth_error (skipn (Z.to_nat i) l) 0).
  rewrite nth_error_skipn. f_equal. lia.
Qed.

(** After the insertion the new element sits at [i]. *)
Lemma get_at_insert l i (a : A) :
  0 <= i <= Js.len l ->
  Js.get (Js.slice l 0 i ++ [a] ++ Js.sliceFrom l i) i = Some a.
Proof.
  intros H. rewrite insert_at by lia. unfold Js.get, Js.len in *.
  destruct (i <? 0) eqn:E; [apply Z.ltb_lt in E; lia|].
  rewrite nth_error_app2 by (rewrite length_firstn; lia).
  rewrite length_firstn.
  replace (Z.to_nat i - Nat.min (Z.to_nat i) (length l))%nat with 0%nat by lia.
  reflexivity.
Qed.
End ArrayFacts.

Lemma arrayMove_defined {A : Type} (l : list A) (from to : Z) :
  l <> [] -> -1 <= from < Js.len l ->
  exists l', Js.arrayMove l from to = Some l'.
Proof.
  intros N R. unfold Js.arrayMove, Js.spliceOut.
  assert (L : 0 < Js.len l) by (destruct l; [contradiction | unfold Js.len; simpl; lia]).
  destruct (nth_error l (Z.to_nat (Js.relIndex (Js.len l) from))) as [x|] eqn:E;
    [eauto|].
  exfalso. apply nth_error_None in E. unfold Js.relIndex, Js.len in *.
  destruct (from <? 0) eqn:F; [apply Z.ltb_lt in F | apply Z.ltb_ge in F]; lia.
Qed.

(** [arrayMove] leaves a hole only in an empty list, when the index of the
    element to move is one [findIndex] can give. *)
Lemma arrayMove_None {A : Type} (l : list A) (from to : Z) :
  Js.arrayMove l from to = None -> -1 <= from < Js.len l -> l = [].
Proof.
  intros H R. destruct l as [|x l]; [reflexivity|].
  destruct (arrayMove_defined (x :: l) from to) as (l' & E);
    [discriminate | exact R | congruence].
Qed.

(** ** Accepted cross-list moves *)

(** The snapshot mutation of an accepted move cannot fail, and leaves the
    article in the target list in front of index [i]. *)
Lemma crossListMove_target lists art i0 t tl i :
  findList lists i0 <> Some t ->
  lookup t lists = Some tl ->
  exists lists',
    crossListMove art (findList lists i0) t i lists = Some lists'
    /\ lookup t lists' = Some (Js.slice tl 0 i ++ [art] ++ Js.sliceFrom tl i).
Proof.
  intros HD Ht. unfold crossListMove, removeFromSource.
  destruct (whenTruthy (findList lists i0)) as [s|] eqn:HS.
  - apply whenTruthy_Some in HS as [HS _].
    destruct (findList_Some _ _ _ HS) as (l & Hl & _). rewrite Hl.
    unfold insertIntoTarget.
    rewrite lookup_assign_other by congruence. rewrite Ht.
    eexists. split; [reflexivity|]. apply lookup_assign_same.
  - unfold insertIntoTarget. rewrite Ht.
    eexists. split; [reflexivity|]. apply lookup_assign_same.
Qed.

(** What [handleDragOver] does once the guards are passed. *)
Lemma handleDragOver_accepted env st active ov lists art t tl :
  articleLists st = Some lists ->
  activeArticle st = Some art ->
  acceptsMove env lists art active ov t ->
  lookup t lists = Some tl ->
  exists lists',
    crossListMove art (findList lists (active_id active)) t
                  (Js.findIndex (hasId (over_id ov)) tl) lists = Some lists'
    /\ lookup t lists'
       = Some (Js.slice tl 0 (Js.findIndex (hasId (over_id ov)) tl) ++ [art]
               ++ Js.sliceFrom tl (Js.findIndex (hasId (over_id ov)) tl))
    /\ handleDragOver env st active (Some ov)
       = Returns (mkState (Some lists') (Some t) (Some art))
           (mutate env
              (UpdateArticle (id art) (t =? "queue")%string (Some (now env))
                 (Some (mkPending (id art) t
                          (Js.findIndex (hasId (over_id ov)) tl))))
            ++ if (t =? "queue")%string
               then [ReportEvent "addArticleToQueue"] else []).
Proof.
  intros HL HA (HT & HD & HQ & HM) Ht.
  destruct (crossListMove_target lists art (active_id active) t tl
              (Js.findIndex (hasId (over_id ov)) tl) HD Ht) as (lists' & HC & Hl').
  exists lists'. split; [exact HC|]. split; [exact Hl'|].
  unfold handleDragOver. rewrite HL, HA, HT.
  apply strictEq_false in HD. now rewrite HD, HQ, HM, Ht, HC.
Qed.



(** C3.  What the code does where the claim asks for the neighbours of the
    target index in the pre-insertion list.  The position command of an
    accepted cross-list move is built when the membership update resolves,
    from the target list as it stands by then, "before" read at the target
    index and "after" at the target index plus one.  On the snapshot the
    handler leaves, that is after the insertion: with the hovered item
    found at index [i >= 0] the command names the moved article itself as
    "before" and the hovered item as "after"; on an empty target list the
    target index is [-1], there is no "before" and the moved article itself
    is "after". *)
Theorem over_accepted_neighbours env st active ov lists art t tl :
  rep env = true ->
  articleLists st = Some lists ->
  activeArticle st = Some art ->
  acceptsMove env lists art active ov t ->
  lookup t lists = Some tl ->
  exists lists' p,
    handleDragOver env st active (Some ov)
    = Returns (mkState (Some lists') (Some t) (Some art))
        (UpdateArticle (id art) (t =? "queue")%string (Some (now env)) (Some p)
         :: if (t =? "queue")%string then [ReportEvent "addArticleToQueue"] else [])
    /\ pendingIndex p = Js.findIndex (hasId (over_id ov)) tl
    /\ (forall later tl',
           lookup t later = Some tl' ->
           resolvePending later p
           = Some (MoveArticlePosition
                     (mkMovePosition (id art)
                        (idOf (Js.get tl' (pendingIndex p)))
                        (idOf (Js.get tl' (pendingIndex p + 1)))
                        queue_sort_position)))
    /\ (0 <= pendingIndex p ->
        idOf (Js.get tl (pendingIndex p)) = Some (over_id ov)
        /\ resolvePending lists' p
           = Some (MoveArticlePosition
                     (mkMovePosition (id art) (Some (id art)) (Some (over_id ov))
                                     queue_sort_position)))
    /\ (tl = [] ->
        pendingIndex p = -1
        /\ resolvePending lists' p
           = Some (MoveArticlePosition
                     (mkMovePosition (id art) None (Some (id art))
                                     queue_sort_position))).
Proof.
  intros HR HL HA HAcc Ht.
  destruct (handleDragOver_accepted env st active ov lists art t tl HL HA HAcc Ht)
    as (lists' & _ & Hl' & HO).
  unfold mutate in HO. rewrite HR in HO. simpl in HO.
  exists lists', (mkPending (id art) t (Js.findIndex (hasId (over_id ov)) tl)).
  split; [exact HO|]. split; [reflexivity|]. split; [|split].
  - intros later tl' H. unfold resolvePending. simpl. now rewrite H.
  - cbn [pendingIndex]. intros Hi.
    pose proof (findIndex_range (hasId (over_id ov)) tl) as R.
    destruct (findIndex_get _ _ Hi) as (o & Ho & Hid).
    unfold hasId in Hid. apply String.eqb_eq in Hid.
    split; [rewrite Ho; cbn [idOf option_map]; now rewrite Hid|].
    unfold resolvePending. cbn [pendingList pendingIndex pendingArticle].
    rewrite Hl'. rewrite get_after_insert, get_at_insert by lia.
    rewrite Ho. cbn [idOf option_map]. now rewrite Hid.
  - intros ->. cbn [pendingIndex]. split; [reflexivity|].
    unfold resolvePending. cbn [pendingList pendingIndex pendingArticle].
    rewrite Hl'. reflexivity.
Qed.

Lemma over_accepted_neighbours_witness :
  (exists lists' p,
      handleDragOver Sample.env Sample.dragging Sample.drag_a1 (Some Sample.onY)
      = Returns (mkState (Some lists') (Some "list") (Some Sample.a1))
          [UpdateArticle "a1" false (Some 1700000000000) (Some p)]
      /\ pendingIndex p = 1
      /\ resolvePending lists' p
         = Some (MoveArticlePosition
                   (mkMovePosition "a1" (Some "a1") (Some "y")
                                   queue_sort_position)))
  /\ (exists lists' p,
      handleDragOver Sample.env Sample.dragging Sample.drag_a1
                     (Some Sample.onFavorites)
      = Returns (mkState (Some lists') (Some "favorites") (Some Sample.a1))
          [UpdateArticle "a1" false (Some 1700000000000) (Some p)]
      /\ pendingIndex p = -1
      /\ resolvePending lists' p
         = Some (MoveArticlePosition
                   (mkMovePosition "a1" None (Some "a1") queue_sort_position))).
Proof.
  assert (acc : forall ov t,
             whenTruthy (resolveTarget Sample.lists ov) = Some t ->
             t <> "queue" ->
             groupMismatch Sample.env Sample.a1 t = false ->
             acceptsMove Sample.env Sample.lists Sample.a1 Sample.drag_a1 ov t).
  { intros ov t HT NQ HM. repeat split; try assumption.
    change (findList Sample.lists (active_id Sample.drag_a1)) with (Some "queue").
    congruence. }
  split.
  - destruct (over_accepted_neighbours Sample.env Sample.dragging Sample.drag_a1
                Sample.onY Sample.lists Sample.a1 "list" [Sample.x; Sample.y])
      as (lists' & p & HO & Hi & _ & Hfound & _);
      try reflexivity; [apply acc; try reflexivity; discriminate|].
    exists lists', p. split; [exact HO|]. split; [exact Hi|].
    apply Hfound. rewrite Hi. discriminate.
  - destruct (over_accepted_neighbours Sample.env Sample.dragging Sample.drag_a1
                Sample.onFavorites Sample.lists Sample.a1 "favorites" [])
      as (lists' & p & HO & _ & _ & _ & Hempty);
      try reflexivity; [apply acc; try reflexivity; discriminate|].
    destruct (Hempty eq_refl) as (Hi & Hm).
    exists lists', p. split; [exact HO|]. split; [exact Hi | exact Hm].
Defined.

(** C3, the failing inputs.  Dragging ["a1"] from the queue over ["y"], second
    of the list [[x; y]]: the target index is 1, so the claim's neighbours
    are before = ["x"], after = ["y"].  The command resolved on the
    snapshot left by the handler has the moved article itself as "before";
    resolved on the snapshot as it was before the insertion it has ["y"] as
    "before" and no "after".  And over the empty list ["favorites"] the
    target index is [-1], not 0, and the command resolved on the handler's
    snapshot has the moved article as "after". *)
Lemma over_accepted_neighbours_counterexample :
  (exists lists' p,
      handleDragOver Sample.env Sample.dragging Sample.drag_a1 (Some Sample.onY)
      = Returns (mkState (Some lists') (Some "list") (Some Sample.a1))
          [UpdateArticle "a1" false (Some 1700000000000) (Some p)]
      /\ lookup "list" Sample.lists = Some [Sample.x; Sample.y]
      /\ pendingIndex p = 1
      /\ idOf (Js.get [Sample.x; Sample.y] (1 - 1)) = Some "x"
      /\ resolvePending lists' p
         = Some (MoveArticlePosition
                   (mkMovePosition "a1" (Some "a1") (Some "y") queue_sort_position))
      /\ resolvePending Sample.lists p
         = Some (MoveArticlePosition
                   (mkMovePosition "a1" (Some "y") None queue_sort_position)))
  /\ (exists lists' p,
      handleDragOver Sample.env Sample.dragging Sample.drag_a1
                     (Some Sample.onFavorites)
      = Returns (mkState (Some lists') (Some "favorites") (Some Sample.a1))
          [UpdateArticle "a1" false (Some 1700000000000) (Some p)]
      /\ lookup "favorites" Sample.lists = Some []
      /\ pendingIndex p = -1
      /\ resolvePending lists' p
         = Some (MoveArticlePosition
                   (mkMovePosition "a1" None (Some "a1") queue_sort_position))).
Proof.
  split; eexists; eexists; repeat split; reflexivity.
Qed.

(** ** Publication of the snapshot *)

(** Case analysis on the next [match] or [if] of a handler under study. *)
Ltac break_match :=
  match goal with
  | H : context [match ?x with _ => _ end] |- _ => destruct x eqn:?
  | |- context [match ?x with _ => _ end] => destruct x eqn:?
  end.

Lemma mutate_In env e e' : In e' (mutate env e) -> e' = e.
Proof.
  unfold mutate. destruct (rep env); simpl; [|tauto].
  intros [H|[]]. now symmetry.
Qed.

Lemma handleDragStart_silent st active : effects (handleDragStart st active) = [].
Proof. unfold handleDragStart. repeat break_match; reflexivity. Qed.








(** ** The end of the gesture *)

Lemma handleDragEnd_completes env st active over :
  reachesEnd st active over -> completes (handleDragEnd env st active over).
Proof.
  intros (ov & lists & listId & -> & HL & HA & H).
  unfold completes, handleDragEnd. rewrite HL, HA.
  destruct (active_id active =? over_id ov)%string eqn:E; simpl.
  - eexists. split; [reflexivity|]. split; [split; reflexivity|].
    simpl; auto.
  - destruct H as [H|(l & Hl & HK)];
      [apply String.eqb_eq in H; congruence|].
    rewrite Hl. destruct (sortKey listId) as [k|]; [|contradiction].
    destruct (Js.arrayMove l _ _);
      (eexists; split; [reflexivity|]; split; [split; reflexivity|];
       cbn [effects]; apply in_or_app; right; simpl; auto).
Qed.

Lemma handleDragEnd_completes_only env st active over :
  completes (handleDragEnd env st active over) -> reachesEnd st active over.
Proof.
  intros (st' & _ & _ & HI). unfold reachesEnd.
  unfold handleDragEnd in HI.
  destruct over as [ov|]; [|destruct HI].
  destruct (articleLists st) as [lists|] eqn:HL; [|destruct HI].
  destruct (whenTruthy (activeListId st)) as [listId|] eqn:HA.
  2:{ apply mutate_In in HI. discriminate. }
  exists ov, lists, listId. repeat split; try reflexivity.
  destruct (active_id active =? over_id ov)%string eqn:E;
    [left; now apply String.eqb_eq|]. right. simpl in HI.
  destruct (lookup listId lists) as [l|]; [|destruct HI].
  exists l. split; [reflexivity|].
  destruct (sortKey listId) as [k|];
    [discriminate | destruct HI as [HI|[]]; discriminate].
Qed.

(** C2 (as amended).  An end event resets the session to [Idle] (recorded
    item and source list cleared) and emits the closing reorder event
    exactly when it is delivered with a target, the collection is there, a
    source list is recorded, and either the target is the dragged item
    itself (nothing is mutated) or the recorded list is a list of the
    collection whose sort key resolves (the reorder is applied, also to an
    empty list). *)
Theorem end_completes_iff env st active over :
  completes (handleDragEnd env st active over) <-> reachesEnd st active over.
Proof.
  split; [apply handleDragEnd_completes_only | apply handleDragEnd_completes].
Qed.

Lemma end_completes_iff_witness :
  completes (handleDragEnd Sample.env (Sample.abcd "list") (mkActive "A" true)
                           (Some (mkOver "C" true)))
  /\ completes (handleDragEnd Sample.env (Sample.abcd "list") (mkActive "A" true)
                              (Some (mkOver "A" true)))
  /\ completes (handleDragEnd Sample.env
                              (mkState (Some [("list", [])]) (Some "list")
                                       (Some Sample.A))
                              (mkActive "A" true) (Some (mkOver "C" true))).
Proof.
  split; [|split]; apply end_completes_iff.
  - exists (mkOver "C" true),
      [("list", [Sample.A; Sample.B; Sample.C; Sample.D])], "list".
    do 3 (split; [reflexivity|]).
    right. exists [Sample.A; Sample.B; Sample.C; Sample.D].
    split; [reflexivity | discriminate].
  - exists (mkOver "A" true),
      [("list", [Sample.A; Sample.B; Sample.C; Sample.D])], "list".
    do 3 (split; [reflexivity|]).
    left. reflexivity.
  - exists (mkOver "C" true), [("list", [])], "list".
    do 3 (split; [reflexivity|]).
    right. exists []. split; [reflexivity | discriminate].
Defined.

(** C2, counterexample.  After ["a1"] has fallen out of the queue over the
    foreign topic group ["news_"], the session still records the article
    but no list; the end event delivered then issues the membership update
    and returns: the article stays recorded and no closing event is
    emitted.  The same holds for an end event without a target. *)
Lemma end_early_return_counterexample :
  handleDragOver Sample.env Sample.dragging Sample.drag_a1 (Some Sample.onNews)
  = Returns Sample.fallen []
  /\ Dragging Sample.fallen
  /\ handleDragEnd Sample.env Sample.fallen Sample.drag_a1 (Some Sample.onNews)
     = Returns Sample.fallen [UpdateArticle "a1" false None None]
  /\ ~ Idle Sample.fallen
  /\ ~ completes (handleDragEnd Sample.env Sample.fallen Sample.drag_a1
                                (Some Sample.onNews))
  /\ Dragging Sample.dragging
  /\ handleDragEnd Sample.env Sample.dragging Sample.drag_a1 None
     = Returns Sample.dragging [].
Proof.
  split; [reflexivity|].
  split; [discriminate|].
  split; [reflexivity|].
  split; [intros [H _]; discriminate H|].
  split; [|split; [discriminate | reflexivity]].
  intros (st' & _ & _ & HI).
  destruct HI as [HI|[]]. discriminate.
Qed.

(** ** Reorder inside a list *)

(** C4.  In a reorder inside a list the boundary index is [newIndex + 1]
    when [oldIndex < newIndex] and [newIndex] otherwise; the position
    command is issued first, with the neighbours read from the list as it
    is before the move at the boundary index minus one and at the boundary
    index; the list is then replaced by its [arrayMove].  Moving index 0 to
    index 2 in [[A; B; C; D]] issues the neighbours (before = C, after = D)
    and leaves [[B; C; A; D]]. *)
Theorem end_reorder_neighbours_before_move env st active ov lists listId l k :
  rep env = true ->
  articleLists st = Some lists ->
  whenTruthy (activeListId st) = Some listId ->
  lookup listId lists = Some l ->
  active_id active <> over_id ov ->
  sortKey listId = Some k ->
  (forall o n, newIndexShifted o n = if o <? n then n + 1 else n)
  /\ (exists rest,
         effects (handleDragEnd env st active (Some ov))
         = MoveArticlePosition
             (mkMovePosition (active_id active)
                (idOrNull (Js.get l (newIndexShifted
                                       (Js.findIndex (hasId (active_id active)) l)
                                       (Js.findIndex (hasId (over_id ov)) l) - 1)))
                (idOrNull (Js.get l (newIndexShifted
                                       (Js.findIndex (hasId (active_id active)) l)
                                       (Js.findIndex (hasId (over_id ov)) l))))
                k)
           :: rest)
  /\ (l <> [] ->
      exists l',
        Js.arrayMove l (Js.findIndex (hasId (active_id active)) l)
                     (Js.findIndex (hasId (over_id ov)) l) = Some l'
        /\ handleDragEnd env st active (Some ov)
           = Returns (mkState (Some (assign listId l' lists)) None None)
               [reorderCommand (active_id active) l
                  (Js.findIndex (hasId (active_id active)) l)
                  (Js.findIndex (hasId (over_id ov)) l) k;
                SetArticleLists (assign listId l' lists);
                ReportEvent "reorderArticles"])
  /\ handleDragEnd Sample.env (Sample.abcd "list") (mkActive "A" true)
                   (Some (mkOver "C" true))
     = Returns (mkState (Some [("list", [Sample.B; Sample.C; Sample.A; Sample.D])])
                        None None)
         [MoveArticlePosition
            (mkMovePosition "A" (Some "C") (Some "D") recency_sort_position);
          SetArticleLists [("list", [Sample.B; Sample.C; Sample.A; Sample.D])];
          ReportEvent "reorderArticles"].
Proof.
  intros HR HL HA Hl N HK.
  split; [reflexivity|].
  apply String.eqb_neq in N.
  assert (E : handleDragEnd env st active (Some ov)
              = let command :=
                  [reorderCommand (active_id active) l
                     (Js.findIndex (hasId (active_id active)) l)
                     (Js.findIndex (hasId (over_id ov)) l) k] in
                match Js.arrayMove l (Js.findIndex (hasId (active_id active)) l)
                                   (Js.findIndex (hasId (over_id ov)) l) with
                | Some l' =>
                    Returns (mkState (Some (assign listId l' lists)) None None)
                            (command ++ [SetArticleLists (assign listId l' lists);
                                         ReportEvent "reorderArticles"])
                | None =>
                    IllTyped (mkState (Some lists) None None) listId
                             (command ++ [SetArticleListsHoled lists listId;
                                          ReportEvent "reorderArticles"])
                end).
  { unfold handleDragEnd, mutate. now rewrite HL, HA, N, Hl, HK, HR. }
  split; [|split; [|reflexivity]].
  - rewrite E. cbv zeta.
    destruct (Js.arrayMove l _ _); simpl; eexists; reflexivity.
  - intros Hne.
    destruct (arrayMove_defined l (Js.findIndex (hasId (active_id active)) l)
                (Js.findIndex (hasId (over_id ov)) l) Hne (findIndex_range _ _))
      as (l' & Hm).
    exists l'. split; [exact Hm|]. rewrite E. cbv zeta. now rewrite Hm.
Qed.

Lemma end_reorder_neighbours_before_move_witness :
  newIndexShifted 0 2 = 3
  /\ idOrNull (Js.get [Sample.A; Sample.B; Sample.C; Sample.D] (3 - 1)) = Some "C"
  /\ idOrNull (Js.get [Sample.A; Sample.B; Sample.C; Sample.D] 3) = Some "D"
  /\ exists l',
       Js.arrayMove [Sample.A; Sample.B; Sample.C; Sample.D] 0 2 = Some l'
       /\ handleDragEnd Sample.env (Sample.abcd "list") (mkActive "A" true)
                        (Some (mkOver "C" true))
          = Returns (mkState (Some (assign "list" l' [("list", [Sample.A; Sample.B; Sample.C; Sample.D])]))
                             None None)
              [reorderCommand "A" [Sample.A; Sample.B; Sample.C; Sample.D] 0 2
                              recency_sort_position;
               SetArticleLists (assign "list" l' [("list", [Sample.A; Sample.B; Sample.C; Sample.D])]);
               ReportEvent "reorderArticles"].
Proof.
  destruct (end_reorder_neighbours_before_move Sample.env (Sample.abcd "list")
              (mkActive "A" true) (mkOver "C" true)
              [("list", [Sample.A; Sample.B; Sample.C; Sample.D])] "list"
              [Sample.A; Sample.B; Sample.C; Sample.D] recency_sort_position)
    as (_ & _ & H & _); try reflexivity; [discriminate|].
  do 3 (split; [reflexivity|]).
  apply H. discriminate.
Defined.

(** ** Round trip of a cross-list move *)

Section RoundTrip.
Implicit Types (c : ArticleListsCache) (l : list Article) (i : string).

Lemma relIndex_range (n k : Z) : 0 <= n -> 0 <= Js.relIndex n k <= n.
Proof.
  intros H. unfold Js.relIndex.
  destruct (k <? 0) eqn:E; [apply Z.ltb_lt in E | apply Z.ltb_ge in E]; lia.
Qed.

(** [slice(0, k)] and [slice(k)] always split the array in two. *)
Lemma slice_split l (k : Z) : Js.slice l 0 k ++ Js.sliceFrom l k = l.
Proof.
  pose proof (relIndex_range (Js.len l) k (len_nonneg l)) as R.
  assert (P : Js.slice l 0 k = firstn (Z.to_nat (Js.relIndex (Js.len l) k)) l).
  { unfold Js.slice. replace (Js.relIndex (Js.len l) 0) with 0.
    - now rewrite Z.sub_0_r.
    - unfold Js.relIndex. change (0 <? 0) with false. cbv iota.
      pose proof (len_nonneg l). lia. }
  assert (S : Js.sliceFrom l k = skipn (Z.to_nat (Js.relIndex (Js.len l) k)) l).
  { unfold Js.sliceFrom, Js.slice.
    replace (Js.relIndex (Js.len l) (Js.len l)) with (Js.len l).
    - apply firstn_all2. rewrite length_skipn. unfold Js.len in *. lia.
    - unfold Js.relIndex. pose proof (len_nonneg l).
      destruct (Js.len l <? 0) eqn:E; [apply Z.ltb_lt in E|]; lia. }
  rewrite P, S. apply firstn_skipn.
Qed.

Lemma count_app i l l' : count i (l ++ l') = (count i l + count i l')%nat.
Proof. unfold count. now rewrite filter_app, length_app. Qed.

Lemma without_app i l l' : without i (l ++ l') = without i l ++ without i l'.
Proof. apply filter_app. Qed.

Lemma without_absent i l : existsb (hasId i) l = false -> without i l = l.
Proof.
  unfold without. induction l as [|a l IH]; simpl; [reflexivity|].
  destruct (hasId i a); simpl; [discriminate|].
  intros H. now rewrite IH.
Qed.

Lemma count_absent i l : count i l = 0%nat -> existsb (hasId i) l = false.
Proof.
  unfold count. induction l as [|a l IH]; simpl; [reflexivity|].
  destruct (hasId i a); simpl; [discriminate | exact IH].
Qed.

Lemma without_without i l : without i (without i l) = without i l.
Proof. apply without_absent, without_removes. Qed.

Lemma count_self (a : Article) : count (id a) [a] = 1%nat.
Proof. unfold count, hasId. simpl. now rewrite String.eqb_refl. Qed.

Lemma without_self (a : Article) : without (id a) [a] = [].
Proof. unfold without, hasId. simpl. now rewrite String.eqb_refl. Qed.

Lemma insert_middle {A : Type} (p q : list A) (a : A) :
  firstn (length p) (p ++ q) ++ a :: skipn (length p) (p ++ q) = p ++ a :: q.
Proof.
  rewrite firstn_app, skipn_app, Nat.sub_diag, firstn_all, skipn_all.
  simpl. now rewrite app_nil_r.
Qed.

(** Filtering out the article and inserting it back at its index gives
    the list back, when its id occurs once. *)
Lemma reinsert l (k : Z) (a : Article) :
  Js.get l k = Some a ->
  (count (id a) l <= 1)%nat ->
  Js.slice (without (id a) l) 0 k ++ [a] ++ Js.sliceFrom (without (id a) l) k = l.
Proof.
  unfold Js.get. destruct (k <? 0) eqn:K; [discriminate|].
  apply Z.ltb_ge in K. intros G U.
  pose proof (firstn_skipn_middle _ _ G) as M.
  assert (L : (Z.to_nat k < length l)%nat)
    by (apply nth_error_Some; congruence).
  rewrite <- M in U. rewrite count_app in U.
  change (a :: skipn (S (Z.to_nat k)) l)
    with ([a] ++ skipn (S (Z.to_nat k)) l) in U.
  rewrite count_app, count_self in U.
  assert (W : without (id a) l
              = firstn (Z.to_nat k) l ++ skipn (S (Z.to_nat k)) l).
  { rewrite <- M at 1. rewrite without_app.
    change (a :: skipn (S (Z.to_nat k)) l)
      with ([a] ++ skipn (S (Z.to_nat k)) l).
    rewrite without_app, without_self.
    rewrite !without_absent by (apply count_absent; lia). reflexivity. }
  assert (P : length (firstn (Z.to_nat k) l) = Z.to_nat k)
    by (rewrite length_firstn; lia).
  rewrite W. rewrite insert_at.
  - pose proof (insert_middle (firstn (Z.to_nat k) l)
                  (skipn (S (Z.to_nat k)) l) a) as IM.
    rewrite P in IM. rewrite IM. exact M.
  - unfold Js.len. rewrite length_app, P. lia.
Qed.

End RoundTrip.

(** C9.  Take the item at index [k] of the list [L1], present in no other
    list (the invariant of the collection), move it to another list [L2] at
    any index, and move it back to [L1] at index [k]; list ids are not
    empty, as an empty id is no drop target (line 85).  Both moves are
    carried out; afterwards the keys and every list other than [L1] are
    the original ones, [L1] holds the item again, and the other items of
    [L1] are in their original order.  When the id of the item occurs once
    in [L1], the collection is exactly the original one. *)
Theorem cross_list_move_round_trip c a L1 L2 l1 l2 k i :
  Js.truthy L1 = true -> Js.truthy L2 = true -> L1 <> L2 ->
  lookup L1 c = Some l1 -> lookup L2 c = Some l2 ->
  Js.get l1 k = Some a ->
  existsb (hasId (id a)) l2 = false ->
  exists c1 c2 l1',
    crossListMove a (Some L1) L2 i c = Some c1
    /\ lookup L1 c1 = Some (without (id a) l1)
    /\ (exists l2', lookup L2 c1 = Some l2' /\ In a l2')
    /\ crossListMove a (Some L2) L1 k c1 = Some c2
    /\ map fst c2 = map fst c
    /\ (forall K, K <> L1 -> lookup K c2 = lookup K c)
    /\ lookup L1 c2 = Some l1'
    /\ In a l1'
    /\ without (id a) l1' = without (id a) l1
    /\ (count (id a) l1 = 1%nat -> c2 = c).
Proof.
  intros T1 T2 N H1 H2 G A2.
  set (w := without (id a) l1).
  set (ins := Js.slice l2 0 i ++ [a] ++ Js.sliceFrom l2 i).
  set (l1' := Js.slice w 0 k ++ [a] ++ Js.sliceFrom w k).
  assert (Hw : lookup L2 (assign L1 w c) = Some l2)
    by (rewrite lookup_assign_other; assumption).
  assert (F : without (id a) ins = l2).
  { unfold ins. rewrite !without_app, without_self. simpl.
    rewrite <- without_app, slice_split. now apply without_absent. }
  exists (assign L2 ins (assign L1 w c)), (assign L1 l1' c), l1'.
  split; [|split; [|split; [|split]]].
  - unfold crossListMove, removeFromSource.
    rewrite (whenTruthy_intro _ T1), H1. fold w.
    unfold insertIntoTarget. now rewrite Hw.
  - rewrite lookup_assign_other by congruence. apply lookup_assign_same.
  - exists ins. split; [apply lookup_assign_same|].
    unfold ins. apply in_or_app. right. now left.
  - unfold crossListMove, removeFromSource.
    rewrite (whenTruthy_intro _ T2), lookup_assign_same, assign_assign.
    rewrite F, (assign_lookup _ _ _ Hw).
    unfold insertIntoTarget. rewrite lookup_assign_same, assign_assign.
    reflexivity.
  - split; [eapply keys_assign; eassumption|].
    split; [intros K HK; apply lookup_assign_other; congruence|].
    split; [apply lookup_assign_same|].
    split; [unfold l1'; apply in_or_app; right; now left|].
    split.
    + unfold l1'. rewrite !without_app, without_self. simpl.
      rewrite <- without_app, slice_split. apply without_without.
    + intros C. unfold l1', w. rewrite reinsert by (assumption || lia).
      now apply assign_lookup.
Qed.

Lemma cross_list_move_round_trip_witness :
  exists c1 c2 l1',
    crossListMove Sample.a1 (Some "queue") "list" 1 Sample.lists = Some c1
    /\ lookup "queue" c1 = Some (without "a1" [Sample.a1; Sample.a2])
    /\ (exists l2', lookup "list" c1 = Some l2' /\ In Sample.a1 l2')
    /\ crossListMove Sample.a1 (Some "list") "queue" 0 c1 = Some c2
    /\ map fst c2 = map fst Sample.lists
    /\ (forall K, K <> "queue" -> lookup K c2 = lookup K Sample.lists)
    /\ lookup "queue" c2 = Some l1'
    /\ In Sample.a1 l1'
    /\ without "a1" l1' = without "a1" [Sample.a1; Sample.a2]
    /\ (count "a1" [Sample.a1; Sample.a2] = 1%nat -> c2 = Sample.lists).
Proof.
  apply (cross_list_move_round_trip Sample.lists Sample.a1 "queue" "list"
           [Sample.a1; Sample.a2] [Sample.x; Sample.y] 0 1);
    try reflexivity; discriminate.
Defined.

(** ** The scenario: from the queue onto the empty favorites list *)

Lemma handleDragEnd_no_source env st active ov lists :
  articleLists st = Some lists ->
  whenTruthy (activeListId st) = None ->
  handleDragEnd env st active (Some ov)
  = Returns st (mutate env (UpdateArticle (active_id active) false None None)).
Proof. intros HL HA. unfold handleDragEnd. now rewrite HL, HA. Qed.





(** * Further properties of the handlers *)

(** ** Finding the list of an item *)

Lemma lookup_in_keys k (c : ArticleListsCache) l :
  lookup k c = Some l -> In k (map fst c).
Proof.
  induction c as [|[k0 l0] c IH]; simpl; [discriminate|].
  destruct (String.eqb_spec k0 k); [now left | intros H; right; auto].
Qed.

Lemma keys_lookup k (c : ArticleListsCache) :
  In k (map fst c) -> exists l, lookup k c = Some l.
Proof.
  induction c as [|[k0 l0] c IH]; simpl; [tauto|].
  destruct (String.eqb_spec k0 k); [eauto|].
  intros [H|H]; [contradiction | auto].
Qed.

Lemma findList_None (c : ArticleListsCache) i :
  findList c i = None <->
  forall k l, lookup k c = Some l -> existsb (hasId i) l = false.
Proof.
  unfold findList. split.
  - intros H k l Hl.
    pose proof (find_none _ _ H k (lookup_in_keys _ _ _ Hl)) as F.
    cbv beta in F. now rewrite Hl in F.
  - intros H.
    destruct (find _ (map fst c)) as [k|] eqn:F; [|reflexivity].
    apply find_some in F as [_ F].
    destruct (lookup k c) as [l|] eqn:Hl; [|discriminate].
    rewrite (H k l Hl) in F. discriminate.
Qed.

(** X1.  The search for the list of an item finds nothing exactly when no
    list of the collection holds an article with that id; what it finds is
    a key of the collection whose list holds such an article. *)
Theorem findList_classifies (c : ArticleListsCache) i :
  (findList c i = None <->
   forall k l, lookup k c = Some l -> existsb (hasId i) l = false)
  /\ (forall k, findList c i = Some k ->
                In k (map fst c)
                /\ exists l, lookup k c = Some l /\ existsb (hasId i) l = true).
Proof.
  split; [apply findList_None|].
  intros k H. destruct (findList_Some _ _ _ H) as (l & Hl & He).
  split; [eapply lookup_in_keys; eassumption | eauto].
Qed.

(** ** The start of the gesture *)

Lemma existsb_find {A : Type} (p : A -> bool) l :
  existsb p l = true -> exists a, find p l = Some a.
Proof.
  induction l as [|x l IH]; simpl; [discriminate|].
  destruct (p x); [eauto | exact IH].
Qed.

Lemma handleDragStart_found st active lists s :
  articleLists st = Some lists ->
  active_data active = true ->
  whenTruthy (findList lists (active_id active)) = Some s ->
  exists l a,
    lookup s lists = Some l /\ find (hasId (active_id active)) l = Some a
    /\ handleDragStart st active
       = Returns (mkState (Some lists) (Some s) (Some a)) [].
Proof.
  intros HL HD HS. unfold handleDragStart. rewrite HL, HD, HS. simpl.
  apply whenTruthy_Some in HS as [HS _].
  destruct (findList_Some _ _ _ HS) as (l & Hl & He).
  destruct (existsb_find _ _ He) as (a & Ha).
  exists l, a. now rewrite Hl, Ha.
Qed.

(** X2.  A start event with drag data on an available collection never
    throws, issues nothing and leaves the collection alone.  The recorded
    list is the non-empty id of the list found for the dragged id; with it
    an article of that list carrying the dragged id is recorded.  When no
    list is found the recorded list is cleared and the recorded article
    stays what it was. *)
Theorem handleDragStart_records st active lists :
  articleLists st = Some lists ->
  active_data active = true ->
  exists st',
    handleDragStart st active = Returns st' []
    /\ articleLists st' = Some lists
    /\ activeListId st' = whenTruthy (findList lists (active_id active))
    /\ (forall s, activeListId st' = Some s ->
                  exists l a, lookup s lists = Some l
                              /\ activeArticle st' = Some a
                              /\ In a l /\ id a = active_id active)
    /\ (activeListId st' = None -> activeArticle st' = activeArticle st).
Proof.
  intros HL HD.
  destruct (whenTruthy (findList lists (active_id active))) as [s|] eqn:HS.
  - destruct (handleDragStart_found st active lists s HL HD HS)
      as (l & a & Hl & Ha & HO).
    eexists. split; [exact HO|]. simpl.
    split; [reflexivity|]. split; [reflexivity|].
    split; [|discriminate].
    intros s' E. injection E as <-. exists l, a.
    apply find_some in Ha as [Hin Hid]. unfold hasId in Hid.
    apply String.eqb_eq in Hid. auto.
  - unfold handleDragStart. rewrite HL, HD, HS. simpl.
    eexists. split; [reflexivity|]. simpl.
    split; [reflexivity|]. split; [reflexivity|].
    split; [discriminate | reflexivity].
Qed.

Lemma handleDragStart_records_witness :
  exists st',
    handleDragStart Sample.fallen Sample.drag_a2 = Returns st' []
    /\ articleLists st' = articleLists Sample.fallen
    /\ activeListId st' = Some "queue"
    /\ activeArticle st' = Some Sample.a2.
Proof.
  destruct (handleDragStart_records Sample.fallen Sample.drag_a2
              [("queue", [Sample.a2]); ("favorites", []);
               ("news_", [Sample.n1]); ("list", [Sample.x; Sample.y])])
    as (st' & HO & HL & HA & _); try reflexivity.
  exists st'. split; [exact HO|]. split; [exact HL|]. split; [exact HA|].
  injection HO as <-. reflexivity.
Defined.

(** ** Exceptions *)

Lemma handleDragOver_throws env st active over :
  handleDragOver env st active over = Throws ->
  exists lists art ov t,
    articleLists st = Some lists /\ activeArticle st = Some art
    /\ over = Some ov /\ acceptsMove env lists art active ov t
    /\ lookup t lists = None.
Proof.
  unfold handleDragOver. intros H.
  destruct (articleLists st) as [lists|] eqn:HL; [|discriminate].
  destruct over as [ov|]; [|discriminate].
  destruct (activeArticle st) as [art|] eqn:HA; [|discriminate].
  destruct (whenTruthy (resolveTarget lists ov)) as [t|] eqn:HT; [|discriminate].
  destruct (Js.strictEq (findList lists (active_id active)) (Some t)) eqn:HD;
    [discriminate|].
  apply strictEq_false in HD.
  destruct (notQueueMove (findList lists (active_id active)) t) eqn:HQ;
    [discriminate|].
  destruct (groupMismatch env art t) eqn:HM.
  - exfalso.
    destruct (whenTruthy (findList lists (active_id active))) as [s|] eqn:HS;
      [|discriminate].
    apply whenTruthy_Some in HS as [HS _].
    destruct (findList_Some _ _ _ HS) as (l & Hl & _).
    rewrite Hl in H. discriminate.
  - destruct (lookup t lists) as [tl|] eqn:Ht.
    + exfalso.
      destruct (crossListMove_target lists art (active_id active) t tl
                  (Js.findIndex (hasId (over_id ov)) tl) HD Ht) as (c' & HC & _).
      rewrite HC in H. discriminate.
    + exists lists, art, ov, t. repeat split; assumption.
Qed.

(** A target that is no key of the collection can only be the id of a drop
    zone without data. *)
Lemma missing_target_is_container lists ov t :
  whenTruthy (resolveTarget lists ov) = Some t ->
  lookup t lists = None ->
  over_data ov = false /\ t = over_id ov.
Proof.
  intros HT Ht. apply whenTruthy_Some in HT as [HT _].
  unfold resolveTarget in HT. destruct (over_data ov); simpl in HT.
  - destruct (findList_Some _ _ _ HT) as (l & Hl & _). congruence.
  - injection HT as <-. auto.
Qed.

(** X3.  An over event throws exactly when a move that passes every guard
    aims at a list that is no key of the collection; the target is then the
    id of a hovered drop zone without data. *)
Theorem handleDragOver_throws_iff env st active over :
  handleDragOver env st active over = Throws <->
  exists lists art ov,
    articleLists st = Some lists /\ activeArticle st = Some art
    /\ over = Some ov /\ over_data ov = false
    /\ acceptsMove env lists art active ov (over_id ov)
    /\ lookup (over_id ov) lists = None.
Proof.
  split.
  - intros H.
    destruct (handleDragOver_throws _ _ _ _ H)
      as (lists & art & ov & t & HL & HA & -> & HAcc & Ht).
    destruct (missing_target_is_container lists ov t (proj1 HAcc) Ht) as [HD ->].
    exists lists, art, ov. repeat split; try assumption; apply HAcc.
  - intros (lists & art & ov & HL & HA & -> & _ & (HT & HD & HQ & HM) & Ht).
    unfold handleDragOver. rewrite HL, HA, HT.
    apply strictEq_false in HD. now rewrite HD, HQ, HM, Ht.
Qed.

Lemma handleDragOver_throws_iff_witness :
  handleDragOver Sample.env Sample.dragging Sample.drag_a1
                 (Some (mkOver "archive" false)) = Throws.
Proof.
  apply handleDragOver_throws_iff.
  exists Sample.lists, Sample.a1, (mkOver "archive" false).
  repeat split; try reflexivity; discriminate.
Defined.

(** X4.  An end event throws exactly when it has a target other than the
    dragged item, the collection is there and the recorded list is a
    non-empty id that is no key of the collection. *)
Theorem handleDragEnd_throws_iff env st active over :
  handleDragEnd env st active over = Throws <->
  exists ov lists listId,
    over = Some ov /\ articleLists st = Some lists
    /\ whenTruthy (activeListId st) = Some listId
    /\ active_id active <> over_id ov
    /\ lookup listId lists = None.
Proof.
  unfold handleDragEnd. split.
  - intros H.
    destruct over as [ov|]; [|discriminate].
    destruct (articleLists st) as [lists|]; [|discriminate].
    destruct (whenTruthy (activeListId st)) as [listId|]; [|discriminate].
    destruct (String.eqb_spec (active_id active) (over_id ov)) as [E|N];
      [discriminate|]. simpl in H.
    destruct (lookup listId lists) as [l|] eqn:Hl.
    + destruct (sortKey listId); [|discriminate].
      destruct (Js.arrayMove l _ _); discriminate.
    + exists ov, lists, listId. auto.
  - intros (ov & lists & listId & -> & -> & -> & N & ->).
    apply String.eqb_neq in N. now rewrite N.
Qed.

Lemma handleDragEnd_throws_iff_witness :
  handleDragEnd Sample.env
    (mkState (Some Sample.lists) (Some "archive") (Some Sample.a1))
    Sample.drag_a1 (Some Sample.onY) = Throws.
Proof.
  apply handleDragEnd_throws_iff.
  exists Sample.onY, Sample.lists, "archive".
  repeat split; try reflexivity. discriminate.
Defined.

(** ** The recorded list holds the recorded article *)

Lemma recordsHolder_start st active st' log :
  recordsHolder st ->
  handleDragStart st active = Returns st' log -> recordsHolder st'.
Proof.
  intros I H.
  destruct (articleLists st) as [lists|] eqn:HL.
  2:{ unfold handleDragStart in H. rewrite HL in H. now injection H as <- _. }
  destruct (active_data active) eqn:HD.
  2:{ unfold handleDragStart in H. rewrite HL, HD in H. now injection H as <- _. }
  destruct (whenTruthy (findList lists (active_id active))) as [s0|] eqn:HS.
  - destruct (handleDragStart_found st active lists s0 HL HD HS)
      as (l & a & Hl & Ha & HO).
    rewrite HO in H. injection H as <- _.
    intros s Hs. injection Hs as <-.
    split; [now apply whenTruthy_Some in HS|].
    exists lists, l, a. apply find_some in Ha as [Hin _]. auto.
  - unfold handleDragStart in H. rewrite HL, HD, HS in H. simpl in H.
    injection H as <- _. intros s Hs. discriminate Hs.
Qed.

Lemma recordsHolder_over env st active over st' log :
  recordsHolder st ->
  handleDragOver env st active over = Returns st' log -> recordsHolder st'.
Proof.
  intros I H. unfold handleDragOver in H.
  destruct (articleLists st) as [lists|] eqn:HL; [|now injection H as <- _].
  destruct over as [ov|]; [|now injection H as <- _].
  destruct (activeArticle st) as [art|] eqn:HA; [|now injection H as <- _].
  destruct (whenTruthy (resolveTarget lists ov)) as [t|] eqn:HT;
    [|now injection H as <- _].
  destruct (Js.strictEq (findList lists (active_id active)) (Some t)) eqn:HD;
    [now injection H as <- _|].
  apply strictEq_false in HD.
  destruct (notQueueMove (findList lists (active_id active)) t) eqn:HQ;
    [now injection H as <- _|].
  destruct (groupMismatch env art t) eqn:HM.
  - destruct (whenTruthy (findList lists (active_id active))) as [s|];
      [|now injection H as <- _].
    destruct (lookup s lists); [|discriminate].
    injection H as <- _. intros s' Hs. discriminate Hs.
  - destruct (lookup t lists) as [tl|] eqn:Ht; [|discriminate].
    destruct (crossListMove_target lists art (active_id active) t tl
                (Js.findIndex (hasId (over_id ov)) tl) HD Ht) as (c' & HC & Hc').
    rewrite HC in H. injection H as <- _.
    intros s Hs. simpl in Hs. injection Hs as <-.
    split; [now apply whenTruthy_Some in HT|].
    eexists c', _, art. split; [reflexivity|]. split; [exact Hc'|].
    split; [reflexivity|]. apply in_or_app. right. now left.
Qed.

Lemma recordsHolder_end env st active over st' log :
  recordsHolder st ->
  handleDragEnd env st active over = Returns st' log -> recordsHolder st'.
Proof.
  intros I H. unfold handleDragEnd in H.
  assert (cleared : forall c, recordsHolder (mkState c None None))
    by (intros c s Hs; discriminate Hs).
  repeat break_match; try discriminate; injection H as <- _;
    solve [exact I | apply cleared].
Qed.

(** X5.  The three handlers keep the session well formed: whenever a list
    is recorded, its id is not empty, it is a key of the collection, and it
    holds the recorded article. *)
Theorem handlers_keep_recordsHolder env st active over st' log :
  recordsHolder st ->
  handleDragStart st active = Returns st' log
  \/ handleDragOver env st active over = Returns st' log
  \/ handleDragEnd env st active over = Returns st' log ->
  recordsHolder st'.
Proof.
  intros I [H|[H|H]].
  - eapply recordsHolder_start; eassumption.
  - eapply recordsHolder_over; eassumption.
  - eapply recordsHolder_end; eassumption.
Qed.

Lemma sample_dragging_recordsHolder : recordsHolder Sample.dragging.
Proof.
  intros s Hs. injection Hs as <-. split; [reflexivity|].
  exists Sample.lists, [Sample.a1; Sample.a2], Sample.a1.
  repeat split; try reflexivity. now left.
Qed.

Lemma handlers_keep_recordsHolder_witness :
  recordsHolder
    (mkState (Some [("queue", [Sample.a2]); ("favorites", []);
                    ("news_", [Sample.n1]);
                    ("list", [Sample.x; Sample.a1; Sample.y])])
             (Some "list") (Some Sample.a1)).
Proof.
  apply (handlers_keep_recordsHolder Sample.env Sample.dragging Sample.drag_a1
           (Some Sample.onY) _
           [UpdateArticle "a1" false (Some 1700000000000)
                          (Some (mkPending "a1" "list" 1))]
           sample_dragging_recordsHolder).
  right. left. reflexivity.
Defined.

(** X6.  In a well-formed session the end event always returns: it neither
    throws nor leaves a list with a hole. *)
Theorem handleDragEnd_returns env st active over :
  recordsHolder st ->
  exists st' log, handleDragEnd env st active over = Returns st' log.
Proof.
  intros I. unfold handleDragEnd.
  destruct over as [ov|]; [|eauto].
  destruct (articleLists st) as [lists|] eqn:HL; [|eauto].
  destruct (whenTruthy (activeListId st)) as [listId|] eqn:HA; [|eauto].
  destruct (negb (active_id active =? over_id ov)%string); [|eauto].
  apply whenTruthy_Some in HA as [HA _].
  destruct (I listId HA) as (_ & lists0 & l & art & HL0 & Hl & _ & Hin).
  rewrite HL in HL0. injection HL0 as <-. rewrite Hl.
  destruct (sortKey listId); [|eauto].
  assert (Hne : l <> []) by (intros ->; destruct Hin).
  destruct (arrayMove_defined l (Js.findIndex (hasId (active_id active)) l)
              (Js.findIndex (hasId (over_id ov)) l) Hne (findIndex_range _ _))
    as (l' & ->).
  eauto.
Qed.

Lemma handleDragEnd_returns_witness :
  exists st' log,
    handleDragEnd Sample.env Sample.dragging Sample.drag_a1 (Some Sample.onY)
    = Returns st' log.
Proof.
  exact (handleDragEnd_returns Sample.env Sample.dragging Sample.drag_a1
           (Some Sample.onY) sample_dragging_recordsHolder).
Defined.

(** ** What an over event leaves alone *)

(** Two collections that differ at most in where the article [i] is. *)
Lemma filtered_assign_without i s l (c : ArticleListsCache) :
  lookup s c = Some l ->
  forall k, option_map (without i) (lookup k (assign s (without i l) c))
            = option_map (without i) (lookup k c).
Proof.
  intros Hl k. destruct (string_dec s k) as [<-|N].
  - rewrite lookup_assign_same, Hl. simpl. now rewrite without_without.
  - now rewrite lookup_assign_other.
Qed.

Lemma removeFromSource_frame a src (c c' : ArticleListsCache) :
  removeFromSource a src c = Some c' ->
  map fst c' = map fst c
  /\ (forall k, src <> Some k -> lookup k c' = lookup k c)
  /\ (forall k, option_map (without (id a)) (lookup k c')
                = option_map (without (id a)) (lookup k c)).
Proof.
  unfold removeFromSource.
  destruct (whenTruthy src) as [s|] eqn:HS.
  - apply whenTruthy_Some in HS as [-> _].
    destruct (lookup s c) as [l|] eqn:Hl; [|discriminate].
    intros H; injection H as <-.
    split; [eapply keys_assign; eassumption|].
    split; [intros k N; apply lookup_assign_other; congruence|].
    now apply filtered_assign_without.
  - intros H; injection H as <-. auto.
Qed.

Lemma insertIntoTarget_frame a t i (c c' : ArticleListsCache) :
  insertIntoTarget a t i c = Some c' ->
  map fst c' = map fst c
  /\ (forall k, k <> t -> lookup k c' = lookup k c)
  /\ (forall k, option_map (without (id a)) (lookup k c')
                = option_map (without (id a)) (lookup k c)).
Proof.
  unfold insertIntoTarget.
  destruct (lookup t c) as [l|] eqn:Hl; [|discriminate].
  intros H; injection H as <-.
  split; [eapply keys_assign; eassumption|].
  split; [intros k N; apply lookup_assign_other; congruence|].
  intros k. destruct (string_dec t k) as [<-|N].
  - rewrite lookup_assign_same, Hl. cbn [option_map]. f_equal.
    change (Js.slice l 0 i ++ a :: Js.sliceFrom l i)
      with (Js.slice l 0 i ++ [a] ++ Js.sliceFrom l i).
    rewrite !without_app, without_self. cbn [app].
    now rewrite <- without_app, slice_split.
  - now rewrite lookup_assign_other.
Qed.

Lemma crossListMove_frame a src t i (c c' : ArticleListsCache) :
  crossListMove a src t i c = Some c' ->
  map fst c' = map fst c
  /\ (forall k, src <> Some k -> k <> t -> lookup k c' = lookup k c)
  /\ (forall k, option_map (without (id a)) (lookup k c')
                = option_map (without (id a)) (lookup k c)).
Proof.
  unfold crossListMove.
  destruct (removeFromSource a src c) as [c1|] eqn:HR; [|discriminate].
  intros HI.
  destruct (removeFromSource_frame _ _ _ _ HR) as (K1 & O1 & F1).
  destruct (insertIntoTarget_frame _ _ _ _ _ HI) as (K2 & O2 & F2).
  split; [congruence|].
  split; [intros k Ns Nt; rewrite O2, O1; auto|].
  intros k. now rewrite F2, F1.
Qed.

Lemma existsb_without i j l :
  j <> i -> existsb (hasId j) (without i l) = existsb (hasId j) l.
Proof.
  intros N. unfold without. induction l as [|a l IH]; simpl; [reflexivity|].
  destruct (hasId i a) eqn:E; simpl; rewrite IH; [|reflexivity].
  unfold hasId in *. apply String.eqb_eq in E.
  destruct (String.eqb_spec (id a) j); [congruence | reflexivity].
Qed.

Lemma find_pointwise {A : Type} (p q : A -> bool) (l : list A) :
  (forall x, p x = q x) -> find p l = find q l.
Proof.
  intros H. induction l as [|x l IH]; simpl; [reflexivity|].
  now rewrite H, IH.
Qed.

(** Two collections with the same keys that differ at most in where the
    article [i] is classify every other id alike. *)
Lemma findList_filtered (c c' : ArticleListsCache) i j :
  map fst c' = map fst c ->
  (forall k, option_map (without i) (lookup k c')
             = option_map (without i) (lookup k c)) ->
  j <> i ->
  findList c' j = findList c j.
Proof.
  intros K F N. unfold findList. rewrite K. apply find_pointwise.
  intros k. specialize (F k).
  destruct (lookup k c') as [l'|], (lookup k c) as [l|]; simpl in F;
    try discriminate; [|reflexivity].
  injection F as F.
  rewrite <- (existsb_without i j l' N), <- (existsb_without i j l N).
  now rewrite F.
Qed.

(** The frame of an over event. *)
Lemma handleDragOver_frame env st active ov lists art st' log :
  articleLists st = Some lists ->
  activeArticle st = Some art ->
  handleDragOver env st active (Some ov) = Returns st' log ->
  exists lists',
    articleLists st' = Some lists'
    /\ map fst lists' = map fst lists
    /\ (forall k, findList lists (active_id active) <> Some k ->
                  resolveTarget lists ov <> Some k ->
                  lookup k lists' = lookup k lists)
    /\ (forall k, option_map (without (id art)) (lookup k lists')
                  = option_map (without (id art)) (lookup k lists)).
Proof.
  intros HL HA H.
  assert (same : exists lists',
             articleLists st = Some lists'
             /\ map fst lists' = map fst lists
             /\ (forall k, findList lists (active_id active) <> Some k ->
                           resolveTarget lists ov <> Some k ->
                           lookup k lists' = lookup k lists)
             /\ (forall k, option_map (without (id art)) (lookup k lists')
                           = option_map (without (id art)) (lookup k lists)))
    by (exists lists; auto).
  unfold handleDragOver in H. rewrite HL, HA in H.
  destruct (whenTruthy (resolveTarget lists ov)) as [t|] eqn:HT;
    [|now injection H as <- _].
  destruct (Js.strictEq (findList lists (active_id active)) (Some t));
    [now injection H as <- _|].
  destruct (notQueueMove (findList lists (active_id active)) t);
    [now injection H as <- _|].
  apply whenTruthy_Some in HT as [HT _].
  destruct (groupMismatch env art t).
  - destruct (whenTruthy (findList lists (active_id active))) as [s|] eqn:HS;
      [|now injection H as <- _].
    apply whenTruthy_Some in HS as [HS _].
    destruct (lookup s lists) as [l|] eqn:Hl; [|discriminate].
    injection H as <- _. eexists. split; [reflexivity|].
    split; [eapply keys_assign; eassumption|].
    split; [intros k N _; apply lookup_assign_other; congruence|].
    now apply filtered_assign_without.
  - destruct (lookup t lists) as [tl|]; [|discriminate].
    destruct (crossListMove art _ t _ lists) as [c'|] eqn:HC; [|discriminate].
    injection H as <- _.
    destruct (crossListMove_frame _ _ _ _ _ _ HC) as (K & O & F).
    exists c'. split; [reflexivity|]. split; [exact K|].
    split; [|exact F].
    intros k Ns Nt. apply O; congruence.
Qed.


(** X7.  Whatever an over event does to the collection, it keeps the keys
    and their order, it changes no list other than the one holding the
    dragged id and the hovered one, in every list the articles other than
    the recorded one stay, in their order, and every id other than that of
    the recorded article is found in the list it was found in before. *)
Theorem handleDragOver_moves_only_the_article env st active ov lists art st' log :
  articleLists st = Some lists ->
  activeArticle st = Some art ->
  handleDragOver env st active (Some ov) = Returns st' log ->
  exists lists',
    articleLists st' = Some lists'
    /\ map fst lists' = map fst lists
    /\ (forall k, findList lists (active_id active) <> Some k ->
                  resolveTarget lists ov <> Some k ->
                  lookup k lists' = lookup k lists)
    /\ (forall k, option_map (without (id art)) (lookup k lists')
                  = option_map (without (id art)) (lookup k lists))
    /\ (forall j, j <> id art -> findList lists' j = findList lists j).
Proof.
  intros HL HA H.
  destruct (handleDragOver_frame env st active ov lists art st' log HL HA H)
    as (lists' & HL' & K & O & F).
  exists lists'. repeat split; try assumption.
  intros j N. now apply (findList_filtered lists lists' (id art) j).
Qed.

Lemma handleDragOver_moves_only_the_article_witness :
  exists lists',
    Some [("queue", [Sample.a2]); ("favorites", []); ("news_", [Sample.n1]);
          ("list", [Sample.x; Sample.a1; Sample.y])] = Some lists'
    /\ map fst lists' = map fst Sample.lists
    /\ (forall k, findList Sample.lists "a1" <> Some k ->
                  resolveTarget Sample.lists Sample.onY <> Some k ->
                  lookup k lists' = lookup k Sample.lists)
    /\ (forall k, option_map (without "a1") (lookup k lists')
                  = option_map (without "a1") (lookup k Sample.lists))
    /\ (forall j, j <> "a1" -> findList lists' j = findList Sample.lists j).
Proof.
  exact (handleDragOver_moves_only_the_article Sample.env Sample.dragging
           Sample.drag_a1 Sample.onY Sample.lists Sample.a1
           (mkState (Some [("queue", [Sample.a2]); ("favorites", []);
                           ("news_", [Sample.n1]);
                           ("list", [Sample.x; Sample.a1; Sample.y])])
                    (Some "list") (Some Sample.a1))
           [UpdateArticle "a1" false (Some 1700000000000)
                          (Some (mkPending "a1" "list" 1))]
           eq_refl eq_refl eq_refl).
Defined.

(** ** Store commands *)

Lemma storeCommands_mutate env e :
  (length (filter isStoreCommand (mutate env e)) <= 1)%nat.
Proof. unfold mutate. destruct (rep env); simpl; [destruct (isStoreCommand e)|]; simpl; lia. Qed.

(** X8.  No event issues more than one store command before it returns;
    the start event issues none, and an over or end event issues none
    without the replicache context. *)
Theorem at_most_one_store_command env st active over :
  effects (handleDragStart st active) = []
  /\ (length (filter isStoreCommand (effects (handleDragOver env st active over)))
      <= 1)%nat
  /\ (length (filter isStoreCommand (effects (handleDragEnd env st active over)))
      <= 1)%nat
  /\ (rep env = false ->
      filter isStoreCommand (effects (handleDragOver env st active over)) = []
      /\ filter isStoreCommand (effects (handleDragEnd env st active over)) = []).
Proof.
  split; [apply handleDragStart_silent|].
  split; [|split; [|intros HR; split]].
  - unfold handleDragOver.
    repeat break_match; simpl; try lia;
      rewrite ?filter_app, ?length_app; simpl; rewrite ?Nat.add_0_r;
      apply storeCommands_mutate.
  - unfold handleDragEnd.
    repeat break_match; simpl; try lia;
      rewrite ?filter_app, ?length_app; simpl; rewrite ?Nat.add_0_r;
      apply storeCommands_mutate.
  - unfold handleDragOver, mutate. rewrite HR.
    repeat break_match; reflexivity.
  - unfold handleDragEnd, mutate. rewrite HR.
    repeat break_match; reflexivity.
Qed.

Lemma at_most_one_store_command_witness :
  filter isStoreCommand
    (effects (handleDragOver (mkEnv (fun _ => None) false 0) Sample.dragging
                             Sample.drag_a1 (Some Sample.onY))) = []
  /\ filter isStoreCommand
       (effects (handleDragEnd (mkEnv (fun _ => None) false 0) Sample.dragging
                               Sample.drag_a1 (Some Sample.onY))) = [].
Proof.
  apply (at_most_one_store_command (mkEnv (fun _ => None) false 0)
           Sample.dragging Sample.drag_a1 (Some Sample.onY)).
  reflexivity.
Defined.

(** ** The reorder of an end event *)

Section MoveFacts.
Context {A : Type}.
Implicit Types (l : list A) (x : A).


(** Index by index: the list with [x] put in front of index [s]. *)
Lemma nth_error_inserted l (s j : nat) x :
  (s <= length l)%nat ->
  nth_error (firstn s l ++ x :: skipn s l) j
  = if (j <? s)%nat then nth_error l j
    else if (j =? s)%nat then Some x else nth_error l (j - 1).
Proof.
  intros Hs. rewrite nth_error_app, length_firstn, Nat.min_l by lia.
  destruct (j <? s)%nat eqn:E.
  - rewrite nth_error_firstn. now rewrite E.
  - apply Nat.ltb_ge in E. destruct (j =? s)%nat eqn:E'.
    + apply Nat.eqb_eq in E'. subst. now rewrite Nat.sub_diag.
    + apply Nat.eqb_neq in E'.
      replace (j - s)%nat with (S (j - s - 1)) by lia.
      cbn [nth_error]. rewrite nth_error_skipn. f_equal. lia.
Qed.


(** What [arrayMove] returns, when it returns a list. *)
Lemma arrayMove_shape l (from to : Z) l' :
  Js.arrayMove l from to = Some l' ->
  exists x (f s : nat),
    nth_error l f = Some x
    /\ f = Z.to_nat (Js.relIndex (Js.len l) from)
    /\ s = Z.to_nat (Js.relIndex (Js.len (firstn f l ++ skipn (S f) l))
                                  (if to <? 0 then Js.len l + to else to))
    /\ l' = firstn s (firstn f l ++ skipn (S f) l)
            ++ x :: skipn s (firstn f l ++ skipn (S f) l).
Proof.
  unfold Js.arrayMove, Js.spliceOut, Js.spliceIn.
  destruct (nth_error l (Z.to_nat (Js.relIndex (Js.len l) from))) as [x|] eqn:E;
    [|discriminate].
  intros H; injection H as <-. eauto 8.
Qed.

Lemma arrayMove_Permutation l (from to : Z) l' :
  Js.arrayMove l from to = Some l' -> Permutation l l'.
Proof.
  intros H. destruct (arrayMove_shape _ _ _ _ H) as (x & f & s & Hx & _ & _ & ->).
  rewrite <- (firstn_skipn_middle _ _ Hx) at 1.
  rewrite <- !Permutation_middle. constructor.
  now rewrite firstn_skipn.
Qed.


End MoveFacts.


Lemma findIndex_absent {A : Type} (p : A -> bool) l :
  existsb p l = false -> Js.findIndex p l = -1.
Proof.
  induction l as [|x l IH]; simpl; [reflexivity|].
  destruct (p x); simpl; [discriminate|].
  intros H. now rewrite (IH H).
Qed.



Lemma handleDragEnd_frame env st active over lists st' log :
  articleLists st = Some lists ->
  handleDragEnd env st active over = Returns st' log ->
  exists lists',
    articleLists st' = Some lists'
    /\ map fst lists' = map fst lists
    /\ (forall k, whenTruthy (activeListId st) <> Some k ->
                  lookup k lists' = lookup k lists)
    /\ (forall k l, lookup k lists = Some l ->
                    exists l', lookup k lists' = Some l' /\ Permutation l l').
Proof.
  intros HL H.
  assert (same : forall st0, articleLists st0 = Some lists ->
             exists lists',
               articleLists st0 = Some lists'
               /\ map fst lists' = map fst lists
               /\ (forall k, whenTruthy (activeListId st) <> Some k ->
                             lookup k lists' = lookup k lists)
               /\ (forall k l, lookup k lists = Some l ->
                               exists l', lookup k lists' = Some l'
                                          /\ Permutation l l')).
  { intros st0 H0. exists lists. repeat split; auto.
    intros k l Hl. exists l. auto. }
  unfold handleDragEnd in H.
  destruct over as [ov|]; [|injection H as <- _; now apply same].
  rewrite HL in H.
  destruct (whenTruthy (activeListId st)) as [listId|] eqn:HA;
    [|injection H as <- _; now apply same].
  destruct (negb (active_id active =? over_id ov)%string);
    [|injection H as <- _; now apply same].
  destruct (lookup listId lists) as [l|] eqn:Hl; [|discriminate].
  destruct (sortKey listId); [|injection H as <- _; now apply same].
  destruct (Js.arrayMove l _ _) as [l'|] eqn:HM; [|discriminate].
  injection H as <- _.
  eexists. split; [reflexivity|].
  split; [eapply keys_assign; eassumption|].
  split; [intros k0 N; apply lookup_assign_other; congruence|].
  intros k0 l0 Hl0. destruct (string_dec listId k0) as [<-|N].
  - rewrite lookup_assign_same. exists l'. split; [reflexivity|].
    rewrite Hl in Hl0. injection Hl0 as <-.
    eapply arrayMove_Permutation; eassumption.
  - rewrite lookup_assign_other by exact N. eauto.
Qed.

Lemma handleDragEnd_hole env st active over lists st' listId log :
  articleLists st = Some lists ->
  handleDragEnd env st active over = IllTyped st' listId log ->
  whenTruthy (activeListId st) = Some listId
  /\ lookup listId lists = Some []
  /\ st' = mkState (Some lists) None None.
Proof.
  intros HL H. unfold handleDragEnd in H.
  destruct over as [ov|]; [|discriminate]. rewrite HL in H.
  destruct (whenTruthy (activeListId st)) as [l0|]; [|discriminate].
  destruct (negb (active_id active =? over_id ov)%string); [|discriminate].
  destruct (lookup l0 lists) as [l|] eqn:Hl; [|discriminate].
  destruct (sortKey l0); [|discriminate].
  destruct (Js.arrayMove l _ _) eqn:HM; [discriminate|].
  injection H as <- <- _.
  apply arrayMove_None in HM; [subst l | apply findIndex_range].
  auto.
Qed.

Lemma handleDragEnd_empty_list env st active ov lists listId k :
  articleLists st = Some lists ->
  whenTruthy (activeListId st) = Some listId ->
  lookup listId lists = Some [] ->
  active_id active <> over_id ov ->
  sortKey listId = Some k ->
  handleDragEnd env st active (Some ov)
  = IllTyped (mkState (Some lists) None None) listId
      (mutate env (MoveArticlePosition
                     (mkMovePosition (active_id active) None None k))
       ++ [SetArticleListsHoled lists listId; ReportEvent "reorderArticles"]).
Proof.
  intros HL HA Hl N HK. apply String.eqb_neq in N.
  unfold handleDragEnd. now rewrite HL, HA, N, Hl, HK.
Qed.

(** X9.  An end event that leaves a collection of article lists keeps the
    keys and their order, changes no list other than the recorded one, and
    replaces the recorded list by a permutation of itself.  The one case
    where it leaves something else is the reorder of an empty recorded
    list: then, and only then, the entry of the recorded list becomes
    [[undefined]], the rest of the collection is untouched, a position
    command without neighbours is issued, the holed collection is
    published, and the session is reset. *)
Theorem handleDragEnd_permutes_recorded_list env st active over lists :
  articleLists st = Some lists ->
  (forall st' log,
      handleDragEnd env st active over = Returns st' log ->
      exists lists',
        articleLists st' = Some lists'
        /\ map fst lists' = map fst lists
        /\ (forall k, whenTruthy (activeListId st) <> Some k ->
                      lookup k lists' = lookup k lists)
        /\ (forall k l, lookup k lists = Some l ->
                        exists l', lookup k lists' = Some l' /\ Permutation l l'))
  /\ (forall st' listId log,
         handleDragEnd env st active over = IllTyped st' listId log ->
         whenTruthy (activeListId st) = Some listId
         /\ lookup listId lists = Some []
         /\ st' = mkState (Some lists) None None)
  /\ (forall ov listId k,
         over = Some ov ->
         whenTruthy (activeListId st) = Some listId ->
         lookup listId lists = Some [] ->
         active_id active <> over_id ov ->
         sortKey listId = Some k ->
         handleDragEnd env st active over
         = IllTyped (mkState (Some lists) None None) listId
             (mutate env (MoveArticlePosition
                            (mkMovePosition (active_id active) None None k))
              ++ [SetArticleListsHoled lists listId;
                  ReportEvent "reorderArticles"])).
Proof.
  intros HL. split; [|split].
  - intros st' log H. eapply handleDragEnd_frame; eassumption.
  - intros st' listId log H. eapply handleDragEnd_hole; eassumption.
  - intros ov listId k -> HA Hl N HK.
    now apply handleDragEnd_empty_list.
Qed.

Lemma handleDragEnd_permutes_recorded_list_witness :
  (exists lists',
      Some [("list", [Sample.B; Sample.C; Sample.A; Sample.D])] = Some lists'
      /\ map fst lists' = ["list"]
      /\ (forall k, Some "list" <> Some k ->
                    lookup k lists'
                    = lookup k [("list", [Sample.A; Sample.B; Sample.C; Sample.D])])
      /\ (forall k l,
             lookup k [("list", [Sample.A; Sample.B; Sample.C; Sample.D])] = Some l ->
             exists l', lookup k lists' = Some l' /\ Permutation l l'))
  /\ handleDragEnd Sample.env
       (mkState (Some [("list", [])]) (Some "list") (Some Sample.A))
       (mkActive "A" true) (Some (mkOver "C" true))
     = IllTyped (mkState (Some [("list", [])]) None None) "list"
         [MoveArticlePosition
            (mkMovePosition "A" None None recency_sort_position);
          SetArticleListsHoled [("list", [])] "list";
          ReportEvent "reorderArticles"].
Proof.
  split.
  - exact (proj1 (handleDragEnd_permutes_recorded_list Sample.env
                    (Sample.abcd "list") (mkActive "A" true)
                    (Some (mkOver "C" true))
                    [("list", [Sample.A; Sample.B; Sample.C; Sample.D])] eq_refl)
             (mkState (Some [("list", [Sample.B; Sample.C; Sample.A; Sample.D])])
                      None None)
             [MoveArticlePosition
                (mkMovePosition "A" (Some "C") (Some "D") recency_sort_position);
              SetArticleLists [("list", [Sample.B; Sample.C; Sample.A; Sample.D])];
              ReportEvent "reorderArticles"]
             eq_refl).
  - apply (proj2 (proj2 (handleDragEnd_permutes_recorded_list Sample.env
                           (mkState (Some [("list", [])]) (Some "list")
                                    (Some Sample.A))
                           (mkActive "A" true) (Some (mkOver "C" true))
                           [("list", [])] eq_refl))
             (mkOver "C" true) "list" recency_sort_position);
      try reflexivity. discriminate.
Defined.





(** ** Sequences of events *)

Lemma handleDragOver_mismatch env st active ov lists art t :
  articleLists st = Some lists ->
  activeArticle st = Some art ->
  whenTruthy (resolveTarget lists ov) = Some t ->
  findList lists (active_id active) <> Some t ->
  notQueueMove (findList lists (active_id active)) t = false ->
  groupMismatch env art t = true ->
  exists q,
    lookup "queue" lists = Some q
    /\ handleDragOver env st active (Some ov)
       = Returns (mkState (Some (assign "queue" (without (id art) q) lists))
                          None (Some art)) [].
Proof.
  intros HL HA HT HD HQ HM.
  pose proof (groupMismatch_not_queue _ _ _ HM) as NT.
  assert (HS : findList lists (active_id active) = Some "queue").
  { unfold notQueueMove in HQ. apply andb_false_iff in HQ as [HQ|HQ].
    - now apply negb_false_iff, strictEq_true in HQ.
    - apply negb_false_iff, String.eqb_eq in HQ. contradiction. }
  destruct (findList_Some _ _ _ HS) as (q & Hq & _).
  exists q. split; [exact Hq|].
  unfold handleDragOver. rewrite HL, HA, HT.
  apply strictEq_false in HD. rewrite HD, HQ, HM, HS. simpl. now rewrite Hq.
Qed.

(** X12.  After an over event refused for a foreign topic or domain group,
    the end event, whatever its target, issues the membership update that
    takes the dragged item off the queue, and nothing else: no position
    command, no publication, no closing event. *)
Theorem mismatch_then_end_unqueues env st active ov ov' lists art t :
  rep env = true ->
  articleLists st = Some lists ->
  activeArticle st = Some art ->
  whenTruthy (resolveTarget lists ov) = Some t ->
  findList lists (active_id active) <> Some t ->
  notQueueMove (findList lists (active_id active)) t = false ->
  groupMismatch env art t = true ->
  exists st',
    handleDragOver env st active (Some ov) = Returns st' []
    /\ handleDragEnd env st' active (Some ov')
       = Returns st' [UpdateArticle (active_id active) false None None].
Proof.
  intros HR HL HA HT HD HQ HM.
  destruct (handleDragOver_mismatch env st active ov lists art t
              HL HA HT HD HQ HM) as (q & _ & HO).
  eexists. split; [exact HO|].
  erewrite handleDragEnd_no_source by reflexivity.
  unfold mutate. now rewrite HR.
Qed.

Lemma mismatch_then_end_unqueues_witness :
  exists st',
    handleDragOver Sample.env Sample.dragging Sample.drag_a1 (Some Sample.onNews)
    = Returns st' []
    /\ handleDragEnd Sample.env st' Sample.drag_a1 (Some Sample.onY)
       = Returns st' [UpdateArticle "a1" false None None].
Proof.
  apply (mismatch_then_end_unqueues Sample.env Sample.dragging Sample.drag_a1
           Sample.onNews Sample.onY Sample.lists Sample.a1 "news_");
    try reflexivity; discriminate.
Defined.

(** ** Where an accepted move puts the article *)

(** X13.  An accepted move over an item of the target list puts the
    article at the index of the hovered item: the items in front keep their
    index, the hovered item and those behind it move one index up, and the
    list is one longer. *)
Theorem accepted_move_inserts_before_hovered env st active ov lists art t tl :
  articleLists st = Some lists ->
  activeArticle st = Some art ->
  acceptsMove env lists art active ov t ->
  lookup t lists = Some tl ->
  0 <= Js.findIndex (hasId (over_id ov)) tl ->
  exists lists' tl' log,
    handleDragOver env st active (Some ov)
    = Returns (mkState (Some lists') (Some t) (Some art)) log
    /\ lookup t lists' = Some tl'
    /\ length tl' = S (length tl)
    /\ forall j : nat,
         nth_error tl' j
         = if (j <? Z.to_nat (Js.findIndex (hasId (over_id ov)) tl))%nat
           then nth_error tl j
           else if (j =? Z.to_nat (Js.findIndex (hasId (over_id ov)) tl))%nat
                then Some art
                else nth_error tl (j - 1).
Proof.
  intros HL HA HAcc Ht Hi.
  pose proof (findIndex_range (hasId (over_id ov)) tl) as R.
  destruct (handleDragOver_accepted env st active ov lists art t tl HL HA HAcc Ht)
    as (lists' & _ & Hl' & HO).
  rewrite insert_at in Hl' by lia.
  eexists lists', _, _. split; [exact HO|]. split; [exact Hl'|].
  unfold Js.len in R. split.
  - rewrite length_app, length_firstn. cbn [length]. rewrite length_skipn. lia.
  - intros j. apply nth_error_inserted. lia.
Qed.

Lemma accepted_move_inserts_before_hovered_witness :
  exists lists' tl' log,
    handleDragOver Sample.env Sample.dragging Sample.drag_a1 (Some Sample.onY)
    = Returns (mkState (Some lists') (Some "list") (Some Sample.a1)) log
    /\ lookup "list" lists' = Some tl'
    /\ length tl' = 3%nat
    /\ forall j : nat,
         nth_error tl' j
         = if (j <? 1)%nat then nth_error [Sample.x; Sample.y] j
           else if (j =? 1)%nat then Some Sample.a1
                else nth_error [Sample.x; Sample.y] (j - 1).
Proof.
  apply (accepted_move_inserts_before_hovered Sample.env Sample.dragging
           Sample.drag_a1 Sample.onY Sample.lists Sample.a1 "list"
           [Sample.x; Sample.y]); try reflexivity; [|discriminate].
  repeat split; try reflexivity. discriminate.
Defined.

Lemma slice_before_last {A : Type} (pre : list A) (z : A) :
  Js.slice (pre ++ [z]) 0 (-1) = pre /\ Js.sliceFrom (pre ++ [z]) (-1) = [z].
Proof.
  assert (L : Js.len (pre ++ [z]) = Z.of_nat (length pre) + 1)
    by (unfold Js.len; rewrite length_app; simpl; lia).
  unfold Js.sliceFrom, Js.slice, Js.relIndex. rewrite L.
  change (0 <? 0) with false. change (-1 <? 0) with true. cbv iota.
  destruct (Z.of_nat (length pre) + 1 <? 0) eqn:E; [apply Z.ltb_lt in E; lia|].
  rewrite Z.min_id, (Z.min_l 0), Z.max_l by lia.
  replace (Z.to_nat (Z.of_nat (length pre) + 1 + -1 - 0)) with (length pre) by lia.
  replace (Z.to_nat (Z.of_nat (length pre) + 1 + -1)) with (length pre) by lia.
  replace (Z.to_nat (Z.of_nat (length pre) + 1 - (Z.of_nat (length pre) + 1 + -1)))
    with 1%nat by lia.
  cbn [skipn Z.to_nat]. split.
  - rewrite firstn_app, Nat.sub_diag, firstn_all. simpl. apply app_nil_r.
  - rewrite skipn_app, Nat.sub_diag, skipn_all. reflexivity.
Qed.

(** X14.  An accepted move onto a list whose hovered id is the id of none
    of its items (a drop zone of a list that is not empty) puts the article
    in front of the last item of that list. *)
Theorem accepted_move_onto_zone_inserts_before_last
    env st active ov lists art t pre z :
  articleLists st = Some lists ->
  activeArticle st = Some art ->
  acceptsMove env lists art active ov t ->
  lookup t lists = Some (pre ++ [z]) ->
  existsb (hasId (over_id ov)) (pre ++ [z]) = false ->
  exists lists' log,
    handleDragOver env st active (Some ov)
    = Returns (mkState (Some lists') (Some t) (Some art)) log
    /\ lookup t lists' = Some (pre ++ [art; z]).
Proof.
  intros HL HA HAcc Ht Ho.
  destruct (handleDragOver_accepted env st active ov lists art t _ HL HA HAcc Ht)
    as (lists' & _ & Hl' & HO).
  rewrite (findIndex_absent _ _ Ho) in Hl'.
  destruct (slice_before_last pre z) as [-> ->] in Hl'.
  eexists lists', _. split; [exact HO | exact Hl'].
Qed.

Lemma accepted_move_onto_zone_inserts_before_last_witness :
  exists lists' log,
    handleDragOver Sample.env Sample.dragging Sample.drag_a1
                   (Some (mkOver "list" false))
    = Returns (mkState (Some lists') (Some "list") (Some Sample.a1)) log
    /\ lookup "list" lists' = Some ([Sample.x] ++ [Sample.a1; Sample.y]).
Proof.
  apply (accepted_move_onto_zone_inserts_before_last Sample.env Sample.dragging
           Sample.drag_a1 (mkOver "list" false) Sample.lists Sample.a1 "list"
           [Sample.x] Sample.y); try reflexivity.
  repeat split; try reflexivity. discriminate.
Defined.

(** ** The dragged item stays in one list *)

Lemma find_unique {A : Type} (p : A -> bool) (l : list A) (t : A) :
  (forall x y : A, {x = y} + {x <> y}) ->
  In t l -> p t = true ->
  (forall k, In k l -> k <> t -> p k = false) ->
  find p l = Some t.
Proof.
  intros dec Hin Ht Hother. induction l as [|x l IH]; [destruct Hin|].
  simpl. destruct (dec x t) as [->|N].
  - now rewrite Ht.
  - rewrite (Hother x (or_introl eq_refl) N).
    apply IH.
    + destruct Hin as [E|Hin]; [contradiction | exact Hin].
    + intros k Hk. apply Hother. now right.
Qed.

Lemma removeFromSource_clears a src (c c1 : ArticleListsCache) :
  src <> Some "" ->
  removeFromSource a src c = Some c1 ->
  (forall k l, lookup k c = Some l -> src <> Some k ->
               existsb (hasId (id a)) l = false) ->
  forall k l, lookup k c1 = Some l -> existsb (hasId (id a)) l = false.
Proof.
  intros E H U k l Hl. unfold removeFromSource in H.
  destruct (whenTruthy src) as [s|] eqn:HS.
  - apply whenTruthy_Some in HS as [-> _].
    destruct (lookup s c) as [ls|] eqn:Hs; [|discriminate].
    injection H as <-.
    destruct (string_dec s k) as [<-|N].
    + rewrite lookup_assign_same in Hl. injection Hl as <-.
      apply without_removes.
    + rewrite lookup_assign_other in Hl by exact N.
      apply (U k l Hl). congruence.
  - injection H as <-. apply (U k l Hl).
    destruct src as [s|]; [|discriminate].
    simpl in HS. destruct (Js.truthy s) eqn:T; [discriminate|].
    unfold Js.truthy in T. apply negb_false_iff, String.eqb_eq in T.
    subst s. contradiction.
Qed.

(** After the snapshot mutation of a move, the id of the article is in no
    list but the target, provided it was in no list but the source. *)
Lemma crossListMove_elsewhere_clear a src t i (c c' : ArticleListsCache) :
  src <> Some "" ->
  crossListMove a src t i c = Some c' ->
  (forall k l, lookup k c = Some l -> src <> Some k ->
               existsb (hasId (id a)) l = false) ->
  forall k l, lookup k c' = Some l -> k <> t ->
              existsb (hasId (id a)) l = false.
Proof.
  intros E HC U k l Hl N. unfold crossListMove in HC.
  destruct (removeFromSource a src c) as [c1|] eqn:HR; [|discriminate].
  destruct (insertIntoTarget_frame _ _ _ _ _ HC) as (_ & O & _).
  rewrite O in Hl by exact N.
  eapply removeFromSource_clears; eassumption.
Qed.

(** The list found for an id that only the list [t] holds is [t]. *)
Lemma findList_only_holder (c : ArticleListsCache) i t l :
  lookup t c = Some l ->
  existsb (hasId i) l = true ->
  (forall k l', lookup k c = Some l' -> k <> t -> existsb (hasId i) l' = false) ->
  findList c i = Some t.
Proof.
  intros Hl He Other. unfold findList. apply find_unique.
  - apply string_dec.
  - eapply lookup_in_keys; eassumption.
  - now rewrite Hl.
  - intros k Hk N. destruct (keys_lookup _ _ Hk) as (l' & Hl').
    rewrite Hl'. now apply (Other k l').
Qed.

Lemma inserted_holds (a : Article) l (i : Z) :
  existsb (hasId (id a)) (Js.slice l 0 i ++ [a] ++ Js.sliceFrom l i) = true.
Proof.
  rewrite !existsb_app. cbn [existsb].
  replace (hasId (id a) a) with true
    by (unfold hasId; symmetry; apply String.eqb_refl).
  cbn [orb]. apply orb_true_r.
Qed.

(** X15.  When the recorded article is the dragged item and the dragged id
    is in no list other than the one found for it, an accepted move leaves
    the id in the target list only, and the target is the list found for
    the dragged id from then on: the next over event starts from the list
    the session records. *)
Theorem accepted_move_keeps_single_membership env st active ov lists art t tl :
  articleLists st = Some lists ->
  activeArticle st = Some art ->
  id art = active_id active ->
  acceptsMove env lists art active ov t ->
  lookup t lists = Some tl ->
  findList lists (active_id active) <> Some "" ->
  (forall k l, lookup k lists = Some l ->
               findList lists (active_id active) <> Some k ->
               existsb (hasId (active_id active)) l = false) ->
  exists lists' log,
    handleDragOver env st active (Some ov)
    = Returns (mkState (Some lists') (Some t) (Some art)) log
    /\ (forall k l, lookup k lists' = Some l -> k <> t ->
                    existsb (hasId (active_id active)) l = false)
    /\ findList lists' (active_id active) = Some t.
Proof.
  intros HL HA Hid HAcc Ht E U.
  destruct (handleDragOver_accepted env st active ov lists art t tl HL HA HAcc Ht)
    as (lists' & HC & Hl' & HO).
  rewrite <- Hid in *.
  pose proof (crossListMove_elsewhere_clear _ _ _ _ _ _ E HC U) as Other.
  eexists lists', _. split; [exact HO|]. split; [exact Other|].
  eapply findList_only_holder; [exact Hl' | apply inserted_holds | exact Other].
Qed.

Lemma accepted_move_keeps_single_membership_witness :
  exists lists' log,
    handleDragOver Sample.env Sample.dragging Sample.drag_a1 (Some Sample.onY)
    = Returns (mkState (Some lists') (Some "list") (Some Sample.a1)) log
    /\ (forall k l, lookup k lists' = Some l -> k <> "list" ->
                    existsb (hasId "a1") l = false)
    /\ findList lists' "a1" = Some "list".
Proof.
  apply (accepted_move_keeps_single_membership Sample.env Sample.dragging
           Sample.drag_a1 Sample.onY Sample.lists Sample.a1 "list"
           [Sample.x; Sample.y]); try reflexivity; try discriminate.
  - repeat split; try reflexivity. discriminate.
  - intros k l Hl N. change (findList Sample.lists (active_id Sample.drag_a1))
      with (Some "queue") in N.
    unfold Sample.lists in Hl. cbn [lookup] in Hl.
    repeat match type of Hl with
           | (if (?s =? k)%string then _ else _) = _ =>
               destruct (String.eqb_spec s k); [subst k|]
           end;
      try congruence; injection Hl as <-; reflexivity.
Defined.

(** ** Telemetry of an over event *)

(** X16.  The only event an over handler reports is ["addArticleToQueue"],
    and it reports it only for a move that makes ["queue"] the recorded
    list; every membership update of that log then sets the queue flag.
    An over event never logs an error. *)
Theorem handleDragOver_reports_only_queue_additions env st active over :
  (forall name,
      In (ReportEvent name) (effects (handleDragOver env st active over)) ->
      name = "addArticleToQueue"
      /\ exists st' log,
           handleDragOver env st active over = Returns st' log
           /\ activeListId st' = Some "queue"
           /\ forall a q z p, In (UpdateArticle a q z p) log -> q = true)
  /\ (forall listId,
         ~ In (ConsoleError listId) (effects (handleDragOver env st active over))).
Proof.
  unfold handleDragOver. split.
  - intros name H.
    repeat break_match; simpl in H; try tauto.
    + apply in_app_or in H as [H|H]; [apply mutate_In in H; discriminate|].
      destruct H as [H|[]]. injection H as <-. split; [reflexivity|].
      eexists; eexists. split; [reflexivity|].
      match goal with
      | E : (_ =? "queue")%string = true |- _ => apply String.eqb_eq in E; subst
      end.
      split; [reflexivity|].
      intros ua uq uz up Hin. apply in_app_or in Hin as [Hin|Hin].
      * apply mutate_In in Hin. now injection Hin as _ -> _ _.
      * destruct Hin as [Hin|[]]. discriminate.
    + apply in_app_or in H as [H|H]; [apply mutate_In in H; discriminate|].
      destruct H.
  - intros listId H.
    repeat break_match; simpl in H; try tauto;
      apply in_app_or in H as [H|H];
      try (apply mutate_In in H; discriminate);
      simpl in H; try tauto; destruct H as [H|[]]; discriminate.
Qed.

Lemma handleDragOver_reports_only_queue_additions_witness :
  "addArticleToQueue" = "addArticleToQueue"
  /\ exists st' log,
       handleDragOver Sample.env
         (mkState (Some Sample.lists) (Some "list") (Some Sample.x))
         (mkActive "x" true) (Some (mkOver "a2" true)) = Returns st' log
       /\ activeListId st' = Some "queue"
       /\ forall a q z p, In (UpdateArticle a q z p) log -> q = true.
Proof.
  apply (proj1 (handleDragOver_reports_only_queue_additions Sample.env
                  (mkState (Some Sample.lists) (Some "list") (Some Sample.x))
                  (mkActive "x" true) (Some (mkOver "a2" true)))).
  simpl. auto.
Defined.

(** ** Repeating an over event *)

(** X17.  Under the conditions of a single membership, an accepted over
    event delivered a second time does nothing: the hovered list is by then
    the list found for the dragged id, so the state is returned as it is
    and nothing is issued. *)
Theorem accepted_move_then_same_over_is_noop env st active ov lists art t tl :
  articleLists st = Some lists ->
  activeArticle st = Some art ->
  id art = active_id active ->
  acceptsMove env lists art active ov t ->
  lookup t lists = Some tl ->
  findList lists (active_id active) <> Some "" ->
  (forall k l, lookup k lists = Some l ->
               findList lists (active_id active) <> Some k ->
               existsb (hasId (active_id active)) l = false) ->
  exists st' log,
    handleDragOver env st active (Some ov) = Returns st' log
    /\ activeListId st' = Some t
    /\ handleDragOver env st' active (Some ov) = Returns st' [].
Proof.
  intros HL HA Hid HAcc Ht E U.
  destruct (handleDragOver_accepted env st active ov lists art t tl HL HA HAcc Ht)
    as (lists' & HC & Hl' & HO).
  destruct HAcc as (HT & HD & _ & _).
  assert (HS : findList lists' (active_id active) = Some t).
  { rewrite <- Hid in *.
    eapply findList_only_holder;
      [exact Hl' | apply inserted_holds
       | eapply crossListMove_elsewhere_clear; eassumption]. }
  assert (HT' : resolveTarget lists' ov = resolveTarget lists ov).
  { unfold resolveTarget in *. destruct (over_data ov); [|reflexivity].
    cbn [negb] in *.
    destruct (crossListMove_frame _ _ _ _ _ _ HC) as (K & _ & F).
    apply (findList_filtered lists lists' (id art)); try assumption.
    intros Eo. apply HD. apply whenTruthy_Some in HT as [HT _].
    rewrite <- HT. congruence. }
  eexists; eexists. split; [exact HO|]. split; [reflexivity|].
  unfold handleDragOver. cbn [articleLists activeArticle].
  rewrite HT', HT, HS.
  replace (Js.strictEq (Some t) (Some t)) with true
    by (symmetry; now apply strictEq_true).
  reflexivity.
Qed.

Lemma accepted_move_then_same_over_is_noop_witness :
  exists st' log,
    handleDragOver Sample.env Sample.dragging Sample.drag_a1 (Some Sample.onY)
    = Returns st' log
    /\ activeListId st' = Some "list"
    /\ handleDragOver Sample.env st' Sample.drag_a1 (Some Sample.onY)
       = Returns st' [].
Proof.
  apply (accepted_move_then_same_over_is_noop Sample.env Sample.dragging
           Sample.drag_a1 Sample.onY Sample.lists Sample.a1 "list"
           [Sample.x; Sample.y]); try reflexivity; try discriminate.
  - repeat split; try reflexivity. discriminate.
  - intros k l Hl N. change (findList Sample.lists (active_id Sample.drag_a1))
      with (Some "queue") in N.
    unfold Sample.lists in Hl. cbn [lookup] in Hl.
    repeat match type of Hl with
           | (if (?s =? k)%string then _ else _) = _ =>
               destruct (String.eqb_spec s k); [subst k|]
           end;
      try congruence; injection Hl as <-; reflexivity.
Defined.
